(** * gh-shortlink: the mapping store of [tools/shortlink-cli.mjs]

    A shallow embedding of the command-line tool that keeps the short-link
    registry in one JSON file: argument parsing, loading and saving the
    mapping file, code generation, and the [add] / [remove] / [list]
    commands, followed by the properties of the registry operations.

    JavaScript strings are sequences of UTF-16 code units; they are modelled
    as lists of [N].  The platform services the script calls (the clock, the
    URL parser, SHA-256, [Math.random], [path.resolve], the wording of a
    [SyntaxError]) are variables of the section below. *)

From Stdlib Require Import Ascii String.
From Stdlib.Strings Require Import Byte.
From stdpp Require Import base option list numbers gmap.

Local Open Scope N_scope.
Local Open Scope list_scope.

(** ** Strings *)

Abbreviation char := N.
Abbreviation str := (list char).

(** The code unit of an ASCII character. *)
Definition ch (a : ascii) : char := N_of_ascii a.

(** UTF-8 bytes of a literal of this file as UTF-16 code units (the literals
    used here stay inside the Basic Multilingual Plane). *)
Fixpoint utf16 (bytes : list N) : str :=
  match bytes with
  | [] => []
  | b :: r =>
      if b <? 128 then b :: utf16 r
      else if b <? 224 then
        match r with
        | c :: r' => ((b - 192) * 64 + (c - 128)) :: utf16 r'
        | [] => []
        end
      else
        match r with
        | c :: d :: r' => ((b - 224) * 4096 + (c - 128) * 64 + (d - 128)) :: utf16 r'
        | _ => []
        end
  end.

Definition lit (s : string) : str := utf16 (map N_of_ascii (list_ascii_of_string s)).

(** [String.prototype.startsWith]. *)
Fixpoint startsWith (s prefix : str) {struct prefix} : bool :=
  match prefix, s with
  | [], _ => true
  | p :: prefix', c :: s' => (c =? p) && startsWith s' prefix'
  | _ :: _, [] => false
  end.

(** [WhiteSpace] and [LineTerminator] code units, the ones [trim] removes. *)
Definition is_space (c : char) : bool :=
  ((9 <=? c) && (c <=? 13)) || (c =? 32) || (c =? 160) || (c =? 5760)
  || ((8192 <=? c) && (c <=? 8202)) || (c =? 8232) || (c =? 8233)
  || (c =? 8239) || (c =? 8287) || (c =? 12288) || (c =? 65279).

Fixpoint trimStart (s : str) : str :=
  match s with
  | c :: r => if is_space c then trimStart r else s
  | [] => []
  end.

Definition trimEnd (s : str) : str := rev (trimStart (rev s)).

(** [String.prototype.trim]. *)
Definition trim (s : str) : str := trimEnd (trimStart s).

(** [s.split(sep)] for a one-character separator: always at least one piece. *)
Fixpoint split (sep : char) (s : str) : list str :=
  match s with
  | [] => [[]]
  | c :: r =>
      if c =? sep then [] :: split sep r
      else match split sep r with
           | p :: ps => (c :: p) :: ps
           | [] => [[c]]
           end
  end.

(** [pieces.join(sep)]. *)
Fixpoint join (sep : str) (pieces : list str) : str :=
  match pieces with
  | [] => []
  | [p] => p
  | p :: ps => p ++ sep ++ join sep ps
  end.

(** [s.padEnd(n)] with the default filler, a space. *)
Definition padEnd (n : nat) (s : str) : str :=
  s ++ repeat (ch " ") (n - length s).

(** ** Values

    The values that reach the registry: what [JSON.parse] builds and what
    the [add] command assembles.  A number is kept as its literal; its
    numeric value (an IEEE-754 double) is the platform's business and is
    consulted through [Number_isFinite] and [Number_toString] only.  An
    object is its list of own properties in enumeration order. *)

#[warnings="-register-all"] Inductive value : Type :=
  | VNull
  | VBool (b : bool)
  | VNum (literal : str)
  | VStr (s : str)
  | VArr (items : list value)
  | VObj (props : list (str * value)).

(** An option read from the command line: a flag ([true]) or a string. *)
Inductive optval : Type :=
  | OTrue
  | OStr (s : str).

Definition value_of (o : optval) : value :=
  match o with
  | OTrue => VBool true
  | OStr s => VStr s
  end.

(** [ToBoolean] of an option that may be [undefined]. *)
Definition truthy (o : option optval) : bool :=
  match o with
  | None => false
  | Some OTrue => true
  | Some (OStr s) => negb (bool_decide (s = []))
  end.

(** [ToString] of an option, as a template literal or a [RegExp] sees it. *)
Definition to_str (o : optval) : str :=
  match o with
  | OTrue => lit "true"
  | OStr s => s
  end.

(** Own-property lookup. *)
Fixpoint assoc_get (props : list (str * value)) (k : str) : option value :=
  match props with
  | [] => None
  | (k', v) :: r => if bool_decide (k' = k) then Some v else assoc_get r k
  end.

(** [CreateDataProperty]: overwrite in place, or append. *)
Fixpoint assoc_set (props : list (str * value)) (k : str) (v : value) : list (str * value) :=
  match props with
  | [] => [(k, v)]
  | (k', v') :: r =>
      if bool_decide (k' = k) then (k, v) :: r else (k', v') :: assoc_set r k v
  end.

(** [obj[k] = v] on an object created by a literal, for a primitive [v]:
    the key [__proto__] reaches the setter inherited from
    [Object.prototype], which ignores a primitive. *)
Definition obj_assign (props : list (str * value)) (k : str) (v : value) : list (str * value) :=
  if bool_decide (k = lit "__proto__") then props else assoc_set props k v.

(** [a === b] where [b] is a string or a boolean: only a primitive of the
    same type and value is equal to it. *)
Definition strict_equals (a : option value) (b : optval) : bool :=
  match a, b with
  | Some (VStr s), OStr t => bool_decide (s = t)
  | Some (VBool x), OTrue => x
  | _, _ => false
  end.

(** ** JSON text *)

Definition nl : str := [10].
Definition gap : str := [32; 32].

Definition hex_digit (d : N) : char := if d <? 10 then 48 + d else 87 + d.

Definition unicode_escape (c : char) : str :=
  [92; 117; hex_digit (c / 4096 mod 16); hex_digit (c / 256 mod 16);
   hex_digit (c / 16 mod 16); hex_digit (c mod 16)].

Definition is_leading_surrogate (c : char) : bool := (55296 <=? c) && (c <=? 56319).
Definition is_trailing_surrogate (c : char) : bool := (56320 <=? c) && (c <=? 57343).

Definition quote_char (c : char) : str :=
  if c =? 8 then [92; 98]
  else if c =? 9 then [92; 116]
  else if c =? 10 then [92; 110]
  else if c =? 12 then [92; 102]
  else if c =? 13 then [92; 114]
  else if c =? 34 then [92; 34]
  else if c =? 92 then [92; 92]
  else if c <? 32 then unicode_escape c
  else [c].

Fixpoint quote_chars (s : str) : str :=
  match s with
  | [] => []
  | c :: r =>
      if is_leading_surrogate c then
        match r with
        | d :: r' =>
            if is_trailing_surrogate d then c :: d :: quote_chars r'
            else unicode_escape c ++ quote_chars r
        | [] => unicode_escape c
        end
      else if is_trailing_surrogate c then unicode_escape c ++ quote_chars r
      else quote_char c ++ quote_chars r
  end.

(** [QuoteJSONString]. *)
Definition quote (s : str) : str := 34 :: quote_chars s ++ [34].

Section Stringify.
Variable Number_isFinite : str -> bool.
Variable Number_toString : str -> str.

(** [SerializeJSONProperty] with the two-space gap of
    [JSON.stringify(data,null,2)]. *)
Fixpoint stringify_at (indent : str) (v : value) : str :=
  match v with
  | VNull => lit "null"
  | VBool true => lit "true"
  | VBool false => lit "false"
  | VNum l => if Number_isFinite l then Number_toString l else lit "null"
  | VStr s => quote s
  | VArr items =>
      match items with
      | [] => lit "[]"
      | _ :: _ =>
          let inner := indent ++ gap in
          lit "[" ++ nl ++ inner
          ++ join (lit "," ++ nl ++ inner) (map (stringify_at inner) items)
          ++ nl ++ indent ++ lit "]"
      end
  | VObj props =>
      match props with
      | [] => lit "{}"
      | _ :: _ =>
          let inner := indent ++ gap in
          lit "{" ++ nl ++ inner
          ++ join (lit "," ++ nl ++ inner)
               (map (fun kv => quote (fst kv) ++ lit ": " ++ stringify_at inner (snd kv)) props)
          ++ nl ++ indent ++ lit "}"
      end
  end.

Definition JSON_stringify (v : value) : str := stringify_at [] v.
End Stringify.

Definition is_json_ws (c : char) : bool :=
  (c =? 9) || (c =? 10) || (c =? 13) || (c =? 32).

Fixpoint skip_ws (s : str) : str :=
  match s with
  | c :: r => if is_json_ws c then skip_ws r else s
  | [] => []
  end.

Definition is_digit (c : char) : bool := (48 <=? c) && (c <=? 57).

Definition hex_value (c : char) : option N :=
  if is_digit c then Some (c - 48)
  else if (97 <=? c) && (c <=? 102) then Some (c - 87)
  else if (65 <=? c) && (c <=? 70) then Some (c - 55)
  else None.

Definition hex4 (a b c d : char) : option char :=
  match hex_value a, hex_value b, hex_value c, hex_value d with
  | Some x, Some y, Some z, Some w => Some (((x * 16 + y) * 16 + z) * 16 + w)
  | _, _, _, _ => None
  end.

Definition unescape (e : char) : option char :=
  if e =? 34 then Some 34
  else if e =? 92 then Some 92
  else if e =? 47 then Some 47
  else if e =? 98 then Some 8
  else if e =? 102 then Some 12
  else if e =? 110 then Some 10
  else if e =? 114 then Some 13
  else if e =? 116 then Some 9
  else None.

Definition consume {A} (c : A) (o : option (list A * str)) : option (list A * str) :=
  match o with
  | Some (t, rest) => Some (c :: t, rest)
  | None => None
  end.

(** The characters of a string literal after its opening quote, up to and
    including the closing one. *)
Fixpoint parse_string_chars (s : str) : option (str * str) :=
  match s with
  | [] => None
  | c :: r =>
      if c =? 34 then Some ([], r)
      else if c =? 92 then
        match r with
        | e :: r1 =>
            if e =? 117 then
              match r1 with
              | h1 :: h2 :: h3 :: h4 :: r2 =>
                  match hex4 h1 h2 h3 h4 with
                  | Some u => consume u (parse_string_chars r2)
                  | None => None
                  end
              | _ => None
              end
            else
              match unescape e with
              | Some u => consume u (parse_string_chars r1)
              | None => None
              end
        | [] => None
        end
      else if c <? 32 then None
      else consume c (parse_string_chars r)
  end.

Fixpoint span_digits (s : str) : str * str :=
  match s with
  | c :: r => if is_digit c then let '(ds, rest) := span_digits r in (c :: ds, rest) else ([], s)
  | [] => ([], [])
  end.

(** A JSON number: an optional minus sign, an integer part without a
    leading zero, an optional fraction and an optional exponent. *)
Definition lex_int (s : str) : option (str * str) :=
  match s with
  | c :: r =>
      if c =? 48 then Some ([c], r)
      else if is_digit c then let '(ds, rest) := span_digits r in Some (c :: ds, rest)
      else None
  | [] => None
  end.

Definition lex_frac (s : str) : option (str * str) :=
  match s with
  | c :: r =>
      if c =? 46 then
        match span_digits r with
        | ([], _) => None
        | (ds, rest) => Some (c :: ds, rest)
        end
      else Some ([], s)
  | [] => Some ([], [])
  end.

Definition lex_exp (s : str) : option (str * str) :=
  match s with
  | c :: r =>
      if (c =? 101) || (c =? 69) then
        let '(sign, r1) :=
          match r with
          | g :: r' => if (g =? 43) || (g =? 45) then ([g], r') else ([], r)
          | [] => ([], r)
          end in
        match span_digits r1 with
        | ([], _) => None
        | (ds, rest) => Some (c :: sign ++ ds, rest)
        end
      else Some ([], s)
  | [] => Some ([], [])
  end.

Definition lex_number (s : str) : option (str * str) :=
  let '(sign, s1) :=
    match s with
    | c :: r => if c =? 45 then ([c], r) else ([], s)
    | [] => ([], s)
    end in
  match lex_int s1 with
  | Some (i, s2) =>
      match lex_frac s2 with
      | Some (f, s3) =>
          match lex_exp s3 with
          | Some (e, s4) => Some (sign ++ i ++ f ++ e, s4)
          | None => None
          end
      | None => None
      end
  | None => None
  end.

Section Parse.
(** The parser of one value, used for the elements and members. *)
Variable parse_item : str -> option (value * str).

(** Elements after the first token of a non-empty array, up to and
    including the closing bracket; [n] bounds the elements still to come. *)
Fixpoint parse_elements (n : nat) (s : str) : option (list value * str) :=
  match n with
  | O => None
  | S n' =>
      match parse_item s with
      | Some (v, r) =>
          match skip_ws r with
          | c :: r1 =>
              if c =? 44 then consume v (parse_elements n' (skip_ws r1))
              else if c =? 93 then Some ([v], r1)
              else None
          | [] => None
          end
      | None => None
      end
  end.

Fixpoint parse_members (n : nat) (s : str) : option (list (str * value) * str) :=
  match n with
  | O => None
  | S n' =>
      match s with
      | q :: r =>
          if q =? 34 then
            match parse_string_chars r with
            | Some (k, r1) =>
                match skip_ws r1 with
                | c :: r2 =>
                    if c =? 58 then
                      match parse_item (skip_ws r2) with
                      | Some (v, r3) =>
                          match skip_ws r3 with
                          | d :: r4 =>
                              if d =? 44 then consume (k, v) (parse_members n' (skip_ws r4))
                              else if d =? 125 then Some ([(k, v)], r4)
                              else None
                          | [] => None
                          end
                      | None => None
                      end
                    else None
                | [] => None
                end
            | None => None
            end
          else None
      | [] => None
      end
  end.
End Parse.

(** The object a member list denotes: a repeated name keeps its first
    position and its last value.  (The engine enumerates names that are
    array indices first; the list keeps them where the text has them, which
    only matters for the order in which [JSON.stringify] lists them.) *)
Definition object_of (members : list (str * value)) : value :=
  VObj (fold_left (fun acc kv => assoc_set acc (fst kv) (snd kv)) members []).

(** One JSON value at the head of [s]; [fuel] bounds the nesting depth. *)
Fixpoint parse_value (fuel : nat) (s : str) : option (value * str) :=
  match fuel with
  | O => None
  | S f =>
      match s with
      | [] => None
      | c :: r =>
          if c =? 110 then
            if startsWith s (lit "null") then Some (VNull, drop 4 s) else None
          else if c =? 116 then
            if startsWith s (lit "true") then Some (VBool true, drop 4 s) else None
          else if c =? 102 then
            if startsWith s (lit "false") then Some (VBool false, drop 5 s) else None
          else if c =? 34 then
            match parse_string_chars r with
            | Some (t, r1) => Some (VStr t, r1)
            | None => None
            end
          else if c =? 91 then
            match skip_ws r with
            | c1 :: r2 =>
                if c1 =? 93 then Some (VArr [], r2)
                else
                  match parse_elements (parse_value f) (length r) (skip_ws r) with
                  | Some (items, r3) => Some (VArr items, r3)
                  | None => None
                  end
            | [] => None
            end
          else if c =? 123 then
            match skip_ws r with
            | c1 :: r2 =>
                if c1 =? 125 then Some (VObj [], r2)
                else
                  match parse_members (parse_value f) (length r) (skip_ws r) with
                  | Some (members, r3) => Some (object_of members, r3)
                  | None => None
                  end
            | [] => None
            end
          else
            match lex_number s with
            | Some (l, r1) => Some (VNum l, r1)
            | None => None
            end
      end
  end.

(** [JSON.parse]: [None] stands for a [SyntaxError]. *)
Definition JSON_parse (s : str) : option value :=
  match parse_value (length s) (skip_ws s) with
  | Some (v, r) => match skip_ws r with [] => Some v | _ :: _ => None end
  | None => None
  end.

(** ** The process: files, console, exit status, exceptions *)

(** The places where the platform raises a [TypeError]. *)
Inductive fault : Type :=
  | NullProperty (name : str)
  | NotCallable (name : str)
  | InvalidArgument (name : str)
  | NotPrimitive.

Inductive exn : Type :=
  | Error (message : str)
  | SyntaxError (message : str)
  | TypeError (f : fault).

Inductive result (A : Type) : Type :=
  | Ok (a : A)
  | Throw (e : exn).
Arguments Ok {A} a.
Arguments Throw {A} e.

Inductive event : Type :=
  | Written (file content : str)
  | Log (line : str)
  | Err (line : str).

Record world : Type := World {
  files : gmap str str;
  draws : nat;
  trace : list event;
  exitCode : N
}.

(** What the script takes from Node.js and the machine it runs on.
    [Math_random k] is the outcome of the [k]-th call of [Math.random], as
    far as [Math.floor(Math.random()*n)] depends on it; [fault_message] is
    the engine's wording of a [TypeError] (never empty). *)
Record platform : Type := Platform {
  Math_random : nat -> nat;
  URL_parses : str -> bool;
  sha256_hex : str -> str;
  now_ISO : str;
  path_resolve : str -> str;
  DEFAULT_FILE : str;
  SyntaxError_message : str -> str;
  ENOENT_message : str -> str;
  fault_message : fault -> str;
  Number_isFinite : str -> bool;
  Number_toString : str -> str
}.

Definition M (A : Type) : Type := world -> world * result A.

Definition ret {A} (a : A) : M A := fun w => (w, Ok a).
Definition throw {A} (e : exn) : M A := fun w => (w, Throw e).
Definition bind {A B} (m : M A) (k : A -> M B) : M B :=
  fun w => match m w with
           | (w', Ok a) => k a w'
           | (w', Throw e) => (w', Throw e)
           end.
Definition try_catch {A} (m : M A) (handler : exn -> M A) : M A :=
  fun w => match m w with
           | (w', Ok a) => (w', Ok a)
           | (w', Throw e) => handler e w'
           end.

Notation "'do' x <- m ; k" := (bind m (fun x => k))
  (at level 10, x name, m at level 100, k at level 200).
Notation "m ;; k" := (bind m (fun _ => k))
  (at level 100, k at level 200, right associativity).

Definition emit (e : event) : M unit :=
  fun w => (World (files w) (draws w) (trace w ++ [e]) (exitCode w), Ok tt).

Definition console_log (line : str) : M unit := emit (Log line).
Definition console_error (line : str) : M unit := emit (Err line).

(** ** The script *)

Section Script.
Variable P : platform.

Definition message (e : exn) : str :=
  match e with
  | Error m => m
  | SyntaxError m => m
  | TypeError f => fault_message P f
  end.

Definition existsSync (file : str) : M bool :=
  fun w => (w, Ok (bool_decide (is_Some (files w !! file)))).

Definition readFile (file : str) : M str :=
  fun w => match files w !! file with
           | Some raw => (w, Ok raw)
           | None => (w, Throw (Error (ENOENT_message P file)))
           end.

(** The store takes every write: a write that the file system refuses (a
    missing directory, a path that may not be written) is not part of the
    model, and neither is a crash in the middle of one. *)
Definition writeFile (file content : str) : M unit :=
  fun w => (World (<[file := content]> (files w)) (draws w)
                  (trace w ++ [Written file content]) (exitCode w), Ok tt).

(** [Math.floor(Math.random()*n)]: an index below [n]. *)
Definition random_index (n : nat) : M nat :=
  fun w => (World (files w) (S (draws w)) (trace w) (exitCode w),
            Ok (Math_random P (draws w) mod n)%nat).

Definition base62 : str :=
  lit "0123456789abcdefghijklmnopqrstuvwxyzABCDEFGHIJKLMNOPQRSTUVWXYZ".
Definition base62Safe : str :=
  lit "23456789abcdefghijkmnpqrstuvwxyzABCDEFGHJKLMNPQRSTUVWXYZ".

Definition CODE_MIN_LEN : nat := 5.
Definition CODE_MAX_LEN : nat := 10.
Definition AVOID_AMBIGUOUS : bool := true.

(** [chars[i]] appended to a string: an index out of range reads
    [undefined]. *)
Definition char_at (chars : str) (i : nat) : str :=
  match chars !! i with
  | Some c => [c]
  | None => lit "undefined"
  end.

Fixpoint randCode_from (chars : str) (len : nat) (s : str) : M str :=
  match len with
  | O => ret s
  | S len' =>
      do i <- random_index (length chars);
      randCode_from chars len' (s ++ char_at chars i)
  end.

Definition randCode (len : nat) (safe : bool) : M str :=
  randCode_from (if safe then base62Safe else base62) len [].

(** [opts[key] = v] on the object literal [{cmd: ...}]. *)
Definition opts_assign (opts : gmap str optval) (key : str) (v : optval) : gmap str optval :=
  if bool_decide (key = lit "__proto__") then opts else <[key := v]> opts.

Fixpoint parseArgs_rest (rest : list str) (opts : gmap str optval) : gmap str optval :=
  match rest with
  | [] => opts
  | token :: rest' =>
      if negb (startsWith token (lit "--")) then parseArgs_rest rest' opts
      else
        let key := drop 2 token in
        match rest' with
        | next :: rest'' =>
            if negb (bool_decide (next = [])) && negb (startsWith next (lit "--"))
            then parseArgs_rest rest'' (opts_assign opts key (OStr next))
            else parseArgs_rest rest' (opts_assign opts key OTrue)
        | [] => opts_assign opts key OTrue
        end
  end.

Definition parseArgs (argv : list str) : gmap str optval :=
  let cmd := match argv !! 2%nat with
             | Some c => if bool_decide (c = []) then lit "help" else c
             | None => lit "help"
             end in
  parseArgs_rest (drop 3 argv) {[ lit "cmd" := OStr cmd ]}.

Definition not_an_array : str := lit "mappings.json 必须是数组".

Definition ParseError (file cause : str) : exn :=
  Error (lit "无法解析 " ++ file ++ lit ": " ++ cause).

Definition loadMappings (file : str) : M (list value) :=
  do present <- existsSync file;
  if negb present then ret []
  else
    do raw <- readFile file;
    if bool_decide (trim raw = []) then ret []
    else
      try_catch
        (match JSON_parse raw with
         | None => throw (SyntaxError (SyntaxError_message P raw))
         | Some (VArr items) => ret items
         | Some _ => throw (Error not_an_array)
         end)
        (fun err => throw (ParseError file (message err))).

Definition saveMappings (file : str) (data : list value) : M unit :=
  writeFile file
    (JSON_stringify (Number_isFinite P) (Number_toString P) (VArr data) ++ nl).

(** [item.code] and [item.url]: [None] is [undefined], which is also what a
    primitive or an array has under these names; reading a property of
    [null] throws. *)
Definition get_prop (name : str) (item : value) : M (option value) :=
  match item with
  | VNull => throw (TypeError (NullProperty name))
  | VObj props => ret (assoc_get props name)
  | _ => ret None
  end.

Definition has_code (code : optval) (item : value) : M bool :=
  do c <- get_prop (lit "code") item;
  ret (strict_equals c code).

(** [Array.prototype.some], [findIndex], [filter] and [map] with a callback
    that may throw. *)
Fixpoint some (f : value -> M bool) (data : list value) : M bool :=
  match data with
  | [] => ret false
  | item :: rest => do b <- f item; if b then ret true else some f rest
  end.

Fixpoint findIndex (f : value -> M bool) (data : list value) : M (option nat) :=
  match data with
  | [] => ret None
  | item :: rest =>
      do b <- f item;
      if b then ret (Some O)
      else do i <- findIndex f rest; ret (S <$> i)
  end.

Fixpoint filterM (f : value -> M bool) (data : list value) : M (list value) :=
  match data with
  | [] => ret []
  | item :: rest =>
      do b <- f item;
      do kept <- filterM f rest;
      ret (if b then item :: kept else kept)
  end.

Fixpoint mapM {B} (f : value -> M B) (data : list value) : M (list B) :=
  match data with
  | [] => ret []
  | item :: rest => do b <- f item; do bs <- mapM f rest; ret (b :: bs)
  end.

Definition DuplicateCode (code : optval) : exn :=
  Error (lit "短码 " ++ to_str code ++ lit " 已存在，如需覆盖请使用 --replace").

Definition ensureUnique (code : optval) (data : list value) : M unit :=
  do dup <- some (has_code code) data;
  if dup then throw (DuplicateCode code) else ret tt.

Definition hashPassword (pwd : option optval) : M value :=
  if negb (truthy pwd) then ret VNull
  else match pwd with
       | Some (OStr s) => ret (VStr (sha256_hex P s))
       | _ => throw (TypeError (InvalidArgument (lit "data")))
       end.

Definition parseLocales_pair (map : list (str * value)) (pair : str) : list (str * value) :=
  match split (ch "=") pair with
  | lang :: urlParts =>
      if bool_decide (lang = []) || bool_decide (length urlParts = O) then map
      else
        let url := join (lit "=") urlParts in
        obj_assign map (trim lang) (VStr (trim url))
  | [] => map
  end.

Definition parseLocales (input : option optval) : M value :=
  if negb (truthy input) then ret (VObj [])
  else match input with
       | Some (OStr s) => ret (VObj (fold_left parseLocales_pair (split (ch ",") s) []))
       | _ => throw (TypeError (NotCallable (lit "input.split")))
       end.

Definition isValidUrl (u : optval) : bool := URL_parses P (to_str u).

Definition GenerationExhausted : exn := Error (lit "无法生成唯一短码，请手动指定 --code").

(** [used.has(code)] for a generated string. *)
Definition has (used : list (option value)) (code : str) : bool :=
  existsb (fun c => strict_equals c (OStr code)) used.

Fixpoint getRandomCode_loop (attempts length : nat) (used : list (option value)) : M str :=
  match attempts with
  | O => throw GenerationExhausted
  | S attempts' =>
      do code <- randCode length AVOID_AMBIGUOUS;
      if negb (has used code) then ret code
      else getRandomCode_loop attempts' length used
  end.

Definition MAX_ATTEMPTS : nat := N.to_nat 10000.

Definition getRandomCode (existing : list value) : M str :=
  let length := Nat.max CODE_MIN_LEN 4 in
  do used <- mapM (get_prop (lit "code")) existing;
  getRandomCode_loop MAX_ATTEMPTS length used.

Definition is_code_char (c : char) : bool :=
  is_digit c || ((65 <=? c) && (c <=? 90)) || ((97 <=? c) && (c <=? 122))
  || (c =? 95) || (c =? 45).

(** [/^[0-9A-Za-z_-]+$/.test(s)]. *)
Definition code_pattern (s : str) : bool :=
  negb (bool_decide (s = [])) && forallb is_code_char s.

Definition MissingUrl : exn := Error (lit "add 命令必须提供 --url").
Definition InvalidUrl : exn := Error (lit "URL 非法，请包含协议，如 https://example.com").
Definition InvalidCode : exn := Error (lit "短码仅允许数字、字母、下划线、连字符").
Definition MissingCode : exn := Error (lit "remove 命令必须提供 --code").
Definition NotFound (code : optval) : str := lit "未找到短码 " ++ to_str code.

(** [o||''] and [o||null] (also [o?o:null]). *)
Definition or_empty (o : option optval) : optval :=
  match o with
  | Some v => if truthy o then v else OStr []
  | None => OStr []
  end.

Definition or_null (o : option optval) : value :=
  match o with
  | Some v => if truthy o then value_of v else VNull
  | None => VNull
  end.

Definition new_mapping (code url : optval) (now : str) (expires : value)
    (passwordHash mobile desktop locale : value) : value :=
  VObj [(lit "code", value_of code);
        (lit "url", value_of url);
        (lit "createdAt", VStr now);
        (lit "expiresAt", expires);
        (lit "passwordHash", passwordHash);
        (lit "targets",
          VObj [(lit "device", VObj [(lit "mobile", mobile); (lit "desktop", desktop)]);
                (lit "locale", locale)])].

(** The [add] case of [main]. *)
Definition cmd_add (opts : gmap str optval) (file : str) (data : list value) : M unit :=
  match opts !! lit "url" with
  | None => throw MissingUrl
  | Some url =>
      if negb (truthy (Some url)) then throw MissingUrl
      else if negb (isValidUrl url) then throw InvalidUrl
      else
        let code := or_empty (opts !! lit "code") in
        do code <-
          (if truthy (Some code) then
             if negb (code_pattern (to_str code)) then throw InvalidCode
             else
               (if negb (truthy (opts !! lit "replace")) then ensureUnique code data
                else ret tt) ;;
               ret code
           else do generated <- getRandomCode data; ret (OStr generated));
        let now := now_ISO P in
        do passwordHash <- hashPassword (opts !! lit "password");
        do locale <- parseLocales (opts !! lit "locale");
        let mapping :=
          new_mapping code url now (or_null (opts !! lit "expires")) passwordHash
            (or_null (opts !! lit "mobile")) (or_null (opts !! lit "desktop")) locale in
        do data' <-
          (if truthy (opts !! lit "replace") then
             do idx <- findIndex (has_code code) data;
             match idx with
             | Some i => ret (<[i := mapping]> data)
             | None => ret (data ++ [mapping])
             end
           else ret (data ++ [mapping]));
        saveMappings file data' ;;
        console_log (lit "已写入 " ++ to_str code ++ lit " -> " ++ to_str url)
  end.

(** The [remove] case of [main]. *)
Definition cmd_remove (opts : gmap str optval) (file : str) (data : list value) : M unit :=
  match opts !! lit "code" with
  | None => throw MissingCode
  | Some code =>
      if negb (truthy (Some code)) then throw MissingCode
      else
        let before := length data in
        do filtered <-
          filterM (fun item => do same <- has_code code item; ret (negb same)) data;
        if bool_decide (length filtered = before) then console_error (NotFound code)
        else
          saveMappings file filtered ;;
          console_log (lit "已删除 " ++ to_str code)
  end.

(** [ToString] of a property value, as a template literal applies it;
    [None] stands for the [TypeError] of [ToPrimitive].  An object built
    by [JSON.parse] inherits [toString] from [Object.prototype] unless it
    has a property of that name of its own, which is never callable: then
    neither it nor [valueOf] yields a primitive.  An array is joined with
    commas, [null] elements left empty. *)
Fixpoint ToString (v : value) : option str :=
  match v with
  | VNull => Some (lit "null")
  | VBool true => Some (lit "true")
  | VBool false => Some (lit "false")
  | VNum l => Some (Number_toString P l)
  | VStr s => Some s
  | VArr items =>
      match
        (fix elements (l : list value) : option (list str) :=
           match l with
           | [] => Some []
           | x :: r =>
               match match x with VNull => Some [] | _ => ToString x end with
               | Some t =>
                   match elements r with
                   | Some ts => Some (t :: ts)
                   | None => None
                   end
               | None => None
               end
           end) items
      with
      | Some ts => Some (join (lit ",") ts)
      | None => None
      end
  | VObj props =>
      match assoc_get props (lit "toString") with
      | Some _ => None
      | None => Some (lit "[object Object]")
      end
  end.

Definition list_row (item : value) : M str :=
  do code <- get_prop (lit "code") item;
  do url <- get_prop (lit "url") item;
  match code with
  | Some (VStr c) =>
      match url with
      | Some u =>
          match ToString u with
          | Some t => ret (padEnd 12 c ++ lit " " ++ t)
          | None => throw (TypeError NotPrimitive)
          end
      | None => ret (padEnd 12 c ++ lit " " ++ lit "undefined")
      end
  | Some VNull | None => throw (TypeError (NullProperty (lit "padEnd")))
  | Some _ => throw (TypeError (NotCallable (lit "item.code.padEnd")))
  end.

(** The [list] case of [main]. *)
Definition cmd_list (data : list value) : M unit :=
  if bool_decide (length data = O) then console_log (lit "暂无短链")
  else
    do rows <- mapM list_row data;
    console_log (join nl rows).

Definition help_text : str :=
  join nl
    [lit "短链命令行工具";
     [];
     lit "用法：";
     lit "  node tools/shortlink-cli.mjs <命令> [选项]";
     [];
     lit "命令：";
     lit "  add        新增短链映射";
     lit "  remove     删除指定短码";
     lit "  list       查看全部短码";
     lit "  help       显示本帮助";
     [];
     lit "常用选项：";
     lit "  --file <路径>         指定 mappings.json，默认 assets/mappings.json";
     lit "  --code <短码>         自定义短码，留空则随机生成";
     lit "  --url <URL>          目标链接（add 命令必填）";
     lit "  --expires <时间>     ISO8601 过期时间";
     lit "  --password <密码>    访问密码，写入为 SHA-256 哈希";
     lit "  --mobile <URL>       移动端重定向";
     lit "  --desktop <URL>      桌面端重定向";
     lit "  --locale <a=b,...>   按语言重定向，如 zh-CN=https://example.com";
     lit "  --replace            允许覆盖已存在短码";
     []].

Definition printHelp : M unit := console_log help_text.

Definition resolve_file (opts : gmap str optval) : M str :=
  if truthy (opts !! lit "file") then
    match opts !! lit "file" with
    | Some (OStr f) => ret (path_resolve P f)
    | _ => throw (TypeError (InvalidArgument (lit "paths[0]")))
    end
  else ret (DEFAULT_FILE P).

Definition main (argv : list str) : M unit :=
  let opts := parseArgs argv in
  do file <- resolve_file opts;
  do data <- loadMappings file;
  match opts !! lit "cmd" with
  | Some (OStr cmd) =>
      if bool_decide (cmd = lit "add") then cmd_add opts file data
      else if bool_decide (cmd = lit "remove") then cmd_remove opts file data
      else if bool_decide (cmd = lit "list") then cmd_list data
      else printHelp
  | _ => printHelp
  end.

(** [main().catch(err => ...)]: the message goes to the error stream and
    the exit status becomes 1. *)
Definition run (m : M unit) (w : world) : world :=
  match m w with
  | (w', Ok _) => w'
  | (w', Throw e) => World (files w') (draws w') (trace w' ++ [Err (message e)]) 1
  end.

End Script.

(** ** [assets/utils.js] *)

(** The replacement [escapeHtml] looks up for a character that the pattern
    matches. *)
Definition html_entity (c : char) : option str :=
  if c =? 38 then Some (lit "&amp;")
  else if c =? 60 then Some (lit "&lt;")
  else if c =? 62 then Some (lit "&gt;")
  else if c =? 34 then Some (lit "&quot;")
  else if c =? 39 then Some (lit "&#39;")
  else None.

(** [escapeHtml] on a string: every match of the global pattern is replaced,
    the other characters stay. *)
Definition escapeHtml (s : str) : str :=
  flat_map (fun c => match html_entity c with Some e => e | None => [c] end) s.

(** [b.toString(16)] for an element of a [Uint8Array]. *)
Definition toString16 (b : byte) : str :=
  let n := Byte.to_N b in
  if n <? 16 then [hex_digit n] else [hex_digit (n / 16); hex_digit (n mod 16)].

(** [s.padStart(n, fill)] with a one-character filler. *)
Definition padStart (n : nat) (fill : char) (s : str) : str :=
  repeat fill (n - length s) ++ s.

Section Digest.
(** [TextEncoder.prototype.encode] and [crypto.subtle.digest('SHA-256', _)]. *)
Variable TextEncoder_encode : str -> list byte.
Variable SHA256 : list byte -> list byte.

Definition sha256Hex (s : str) : str :=
  join [] (map (fun b => padStart 2 (ch "0") (toString16 b)) (SHA256 (TextEncoder_encode s))).
End Digest.

(** ** Vocabulary of the statements *)

(** A record set is an array of JSON objects. *)
Definition is_object (v : value) : bool :=
  match v with
  | VObj _ => true
  | _ => false
  end.

Definition record_set (data : list value) : bool := forallb is_object data.

(** The [code] property of a record ([None]: the record has none). *)
Definition code_of (item : value) : option value :=
  match item with
  | VObj props => assoc_get props (lit "code")
  | _ => None
  end.

(** The record carries the code [code]. *)
Definition coded (code : optval) (item : value) : bool :=
  strict_equals (code_of item) code.

(** [n] further calls of [Math.random]. *)
Definition advance (n : nat) (w : world) : world :=
  World (files w) (n + draws w) (trace w) (exitCode w).

(** [s] cut at the first occurrence of [sep]. *)
Fixpoint cut (sep : char) (s : str) : option (str * str) :=
  match s with
  | [] => None
  | c :: r =>
      if c =? sep then Some ([], r)
      else match cut sep r with
           | Some (a, b) => Some (c :: a, b)
           | None => None
           end
  end.

(** The locale option as the specification reads it: the pairs between the
    commas, each cut at its first equals sign into a tag and a URL; a pair
    without an equals sign or without a tag in front of it is skipped. *)
Definition locale_entry (pair : str) : list (str * str) :=
  match cut (ch "=") pair with
  | Some (lang, url) => if bool_decide (lang = []) then [] else [(trim lang, trim url)]
  | None => []
  end.

Definition locale_entries (input : str) : list (str * str) :=
  flat_map locale_entry (split (ch ",") input).

(** [findIndex] without the exceptions: the position of the first record
    that satisfies [p]. *)
Fixpoint index_of (p : value -> bool) (data : list value) : option nat :=
  match data with
  | [] => None
  | item :: rest => if p item then Some O else S <$> index_of p rest
  end.

(** The code drawn from [chars] by [len] calls of the random source
    starting at call number [pos]. *)
Fixpoint pick (chars : str) (rnd : nat -> nat) (pos len : nat) (s : str) : str :=
  match len with
  | O => s
  | S len' => pick chars rnd (S pos) len' (s ++ char_at chars (rnd pos mod length chars)%nat)
  end.

(** The [i]-th candidate of a code generation that starts in [w]. *)
Definition candidate (P : platform) (w : world) (i : nat) : str :=
  pick base62Safe (Math_random P) (draws w + i * 5) 5 [].

(** The record [add] builds and the array it saves, given the code it
    settled on and the two computed fields. *)
Definition mapping_of (P : platform) (opts : gmap str optval) (code url : optval)
    (passwordHash locale : value) : value :=
  new_mapping code url (now_ISO P) (or_null (opts !! lit "expires")) passwordHash
    (or_null (opts !! lit "mobile")) (or_null (opts !! lit "desktop")) locale.

Definition placed (replace : bool) (code : optval) (mapping : value) (data : list value)
    : list value :=
  if replace then
    match index_of (coded code) data with
    | Some i => <[i := mapping]> data
    | None => data ++ [mapping]
    end
  else data ++ [mapping].

(** The text [saveMappings] writes. *)
Definition saved (P : platform) (data : list value) : str :=
  JSON_stringify (Number_isFinite P) (Number_toString P) (VArr data) ++ nl.

(** How [add] settles on a code, starting in [w] and ending in [w1]. *)
Definition settled (P : platform) (opts : gmap str optval) (data : list value) (w : world)
    (code : optval) (w1 : world) : Prop :=
  (opts !! lit "code" = Some code /\ truthy (Some code) = true
   /\ code_pattern (to_str code) = true
   /\ (truthy (opts !! lit "replace") = false -> existsb (coded code) data = false)
   /\ w1 = w)
  \/ (truthy (opts !! lit "code") = false
      /\ exists i, (i < MAX_ATTEMPTS)%nat /\ code = OStr (candidate P w i)
         /\ existsb (coded code) data = false
         /\ w1 = advance (S i * 5) w).

(** A value that its JSON text determines: it holds no number, and no
    object in it lists a property name twice. *)
Fixpoint plain (v : value) : bool :=
  match v with
  | VNum _ => false
  | VArr items => forallb plain items
  | VObj props =>
      bool_decide (NoDup (map fst props)) && forallb (fun kv => plain (snd kv)) props
  | _ => true
  end.

(** What a command can change besides the call counter of the random
    source: the files, the events, the exit status. *)
Definition store (w : world) : gmap str str * list event * N :=
  (files w, trace w, exitCode w).

(** A computation that leaves the store alone, whatever its outcome; one
    that leaves it alone when it throws; one that writes no file but
    [file]. *)
Definition silent {A} (m : M A) : Prop :=
  forall w, store (fst (m w)) = store w.

Definition careful {A} (m : M A) : Prop :=
  forall w w' e, m w = (w', Throw e) -> store w' = store w.

Definition touches_only {A} (file : str) (m : M A) : Prop :=
  forall w f, f <> file -> files (fst (m w)) !! f = files w !! f.

(** The file [main] works on. *)
Definition target_file (P : platform) (opts : gmap str optval) : str :=
  match opts !! lit "file" with
  | Some (OStr f) => if truthy (Some (OStr f)) then path_resolve P f else DEFAULT_FILE P
  | _ => DEFAULT_FILE P
  end.

(** An option as it is typed on the command line: [--key] for a flag,
    [--key value] otherwise; a value that the parser takes as such is not
    empty and does not start with two dashes. *)
Definition render (kv : str * optval) : list str :=
  match snd kv with
  | OTrue => [lit "--" ++ fst kv]
  | OStr v => [lit "--" ++ fst kv; v]
  end.

Definition typed_value (kv : str * optval) : bool :=
  match snd kv with
  | OTrue => true
  | OStr v => negb (bool_decide (v = [])) && negb (startsWith v (lit "--"))
  end.

(** The URL of the last entry with tag [k]. *)
Definition last_entry (k : str) (entries : list (str * str)) : option value :=
  match List.find (fun e => bool_decide (fst e = k)) (rev entries) with
  | Some e => Some (VStr (snd e))
  | None => None
  end.

(** A record [list] can print: an object whose code is a string. *)
Definition listable (item : value) : bool :=
  match item with
  | VObj props => match assoc_get props (lit "code") with Some (VStr _) => true | _ => false end
  | _ => false
  end.

(** A value that can be printed: no object in it, reached through arrays
    only, has a property [toString] of its own. *)
Fixpoint printable (v : value) : bool :=
  match v with
  | VArr items => forallb printable items
  | VObj props => negb (existsb (fun kv => bool_decide (fst kv = lit "toString")) props)
  | _ => true
  end.

(** The text a printable value is printed as. *)
Fixpoint text_of (P : platform) (v : value) : str :=
  match v with
  | VNull => lit "null"
  | VBool b => if b then lit "true" else lit "false"
  | VNum l => Number_toString P l
  | VStr s => s
  | VArr items =>
      join (lit ",") (map (fun x => match x with VNull => [] | _ => text_of P x end) items)
  | VObj _ => lit "[object Object]"
  end.

(** A record whose URL, if it has one, can be printed. *)
Definition url_printable (item : value) : bool :=
  match item with
  | VObj props =>
      match assoc_get props (lit "url") with
      | Some u => printable u
      | None => true
      end
  | _ => true
  end.

(** The row [list] prints for a record. *)
Definition row_of (P : platform) (item : value) : str :=
  match item with
  | VObj props =>
      match assoc_get props (lit "code") with
      | Some (VStr c) =>
          padEnd 12 c ++ lit " "
          ++ match assoc_get props (lit "url") with
             | Some u => text_of P u
             | None => lit "undefined"
             end
      | _ => []
      end
  | _ => []
  end.

(** An option given without a value. *)
Definition bare_flag (o : option optval) : bool :=
  match o with
  | Some OTrue => true
  | _ => false
  end.

(** The condition under which [add] goes through on a record set. *)
Definition add_accepts (P : platform) (opts : gmap str optval) (data : list value)
    (w : world) : bool :=
  match opts !! lit "url" with
  | Some url =>
      truthy (Some url) && isValidUrl P url
      && (if truthy (opts !! lit "code") then
            code_pattern (to_str (or_empty (opts !! lit "code")))
            && (truthy (opts !! lit "replace")
                || negb (existsb (coded (or_empty (opts !! lit "code"))) data))
          else
            existsb (fun i => negb (has (map code_of data) (candidate P w i)))
              (seq 0 MAX_ATTEMPTS))
      && negb (bare_flag (opts !! lit "password"))
      && negb (bare_flag (opts !! lit "locale"))
  | None => false
  end.

(** Two hexadecimal digits per byte, read back. *)
Fixpoint unhex (s : str) : option (list byte) :=
  match s with
  | [] => Some []
  | a :: b :: r =>
      match hex_value a, hex_value b, unhex r with
      | Some x, Some y, Some bytes =>
          match Byte.of_N (x * 16 + y) with
          | Some byte => Some (byte :: bytes)
          | None => None
          end
      | _, _, _ => None
      end
  | [_] => None
  end.

(** The writes among the events, in order. *)
Definition written (events : list event) : list (str * str) :=
  flat_map (fun e => match e with Written f c => [(f, c)] | _ => [] end) events.

(** A computation that writes nothing and leaves the exit status alone;
    it may print. *)
Definition readonly {A} (m : M A) : Prop :=
  forall w, files (fst (m w)) = files w
            /\ written (trace (fst (m w))) = written (trace w)
            /\ exitCode (fst (m w)) = exitCode w.

(** A text that parses as a JSON array. *)
Definition array_text (raw : str) : bool :=
  match JSON_parse raw with
  | Some (VArr _) => true
  | _ => false
  end.

(** The command is one of [names]. *)
Definition command_is (names : list string) (o : option optval) : bool :=
  match o with
  | Some (OStr c) => existsb (fun name => bool_decide (c = lit name)) names
  | _ => false
  end.

(** What holds of the options object at every step of [parseArgs]. *)
Definition sound_options (opts : gmap str optval) : Prop :=
  (forall k v, opts !! k = Some v -> k <> lit "__proto__" /\ truthy (Some v) = true)
  /\ is_Some (opts !! lit "cmd").

(** The object that the successive assignments of the entries build. *)
Definition locale_object (entries : list (str * str)) : list (str * value) :=
  fold_left (fun m e => obj_assign m (fst e) (VStr (snd e))) entries [].

(** The record that [add] is to save for the options, the code it settled
    on and the URL: the six properties in their order; an option that is
    absent or empty gives [null], a password its digest, the locale option
    its object. *)
Definition given (o : option optval) : value :=
  match o with
  | Some (OStr (c :: s)) => VStr (c :: s)
  | Some OTrue => VBool true
  | _ => VNull
  end.

Definition digest_of (P : platform) (o : option optval) : value :=
  match o with
  | Some (OStr (c :: pwd)) => VStr (sha256_hex P (c :: pwd))
  | _ => VNull
  end.

Definition locales_of (o : option optval) : value :=
  match o with
  | Some (OStr input) => VObj (locale_object (locale_entries input))
  | _ => VObj []
  end.

Definition record_for (P : platform) (opts : gmap str optval) (code url : optval) : value :=
  VObj [(lit "code", match code with OStr c => VStr c | OTrue => VBool true end);
        (lit "url", match url with OStr u => VStr u | OTrue => VBool true end);
        (lit "createdAt", VStr (now_ISO P));
        (lit "expiresAt", given (opts !! lit "expires"));
        (lit "passwordHash", digest_of P (opts !! lit "password"));
        (lit "targets",
          VObj [(lit "device",
                  VObj [(lit "mobile", given (opts !! lit "mobile"));
                        (lit "desktop", given (opts !! lit "desktop"))]);
                (lit "locale", locales_of (opts !! lit "locale"))])].

(** The code an [add] settles on: the one given, or else one of the
    candidates of the random source. *)
Definition code_from (P : platform) (opts : gmap str optval) (w : world) (code : optval)
    : Prop :=
  if truthy (opts !! lit "code") then opts !! lit "code" = Some code
  else exists i, (i < MAX_ATTEMPTS)%nat /\ code = OStr (candidate P w i).

(** What [escapeHtml] puts in the place of a character. *)
Definition html_piece (c : char) : str :=
  match html_entity c with Some e => e | None => [c] end.

(** A digit of lower-case hexadecimal; the two digits of a byte. *)
Definition lower_hex (c : char) : bool := is_digit c || ((97 <=? c) && (c <=? 102)).

Definition two_digits (b : byte) : bool :=
  match padStart 2 (ch "0") (toString16 b) with
  | [a; c] =>
      lower_hex a && lower_hex c
      && match hex_value a, hex_value c with
         | Some x, Some y =>
             match Byte.of_N (x * 16 + y) with
             | Some b' => Byte.eqb b b'
             | None => false
             end
         | _, _ => false
         end
  | _ => false
  end.


(** A property of a record, and the names of its properties in order. *)
Definition property (name : string) (item : value) : option value :=
  match item with
  | VObj props => assoc_get props (lit name)
  | _ => None
  end.

Definition keys (item : value) : list str :=
  match item with
  | VObj props => map fst props
  | _ => []
  end.

(** ** Sample runs

    A platform for the examples: the random source counts upwards, a URL
    parses when it starts with [https://], and the digest is a stand-in. *)

Definition sample_random (rnd : nat -> nat) : platform :=
  {| Math_random := rnd;
     URL_parses := fun u => startsWith u (lit "https://");
     sha256_hex := fun s => lit "sha256:" ++ s;
     now_ISO := lit "2024-05-01T12:00:00.000Z";
     path_resolve := fun f => f;
     DEFAULT_FILE := lit "/site/assets/mappings.json";
     SyntaxError_message := fun _ => lit "Unexpected end of JSON input";
     ENOENT_message := fun f => lit "ENOENT: no such file or directory, open " ++ f;
     fault_message := fun _ => lit "TypeError";
     Number_isFinite := fun _ => true;
     Number_toString := fun l => l |}.

Definition sample : platform := sample_random (fun k => k).

Definition sample_record (code url : string) : value :=
  new_mapping (OStr (lit code)) (OStr (lit url)) (lit "2024-04-30T08:00:00.000Z")
    VNull VNull VNull VNull (VObj []).

Definition sample_data : list value :=
  [sample_record "promo1" "https://example.com";
   sample_record "23456" "https://example.org/a?b=c"].

Definition sample_file : str := lit "/site/assets/mappings.json".

Definition sample_world : world :=
  World {[ sample_file := saved sample sample_data ]} 0 [] 0.

Definition node_argv (args : list string) : list str :=
  lit "/usr/bin/node" :: lit "/site/tools/shortlink-cli.mjs" :: map lit args.

Definition add_opts (more : list (str * optval)) : gmap str optval :=
  list_to_map ((lit "cmd", OStr (lit "add")) :: more).

Definition promo1 : optval := OStr (lit "promo1").
Definition example_url : optval := OStr (lit "https://example.com").

(** [add --url https://example.com --code promo1] *)
Definition dup_opts : gmap str optval :=
  add_opts [(lit "url", example_url); (lit "code", promo1)].

(** [add --code promo1] *)
Definition no_url_opts : gmap str optval := add_opts [(lit "code", promo1)].

(** [add --url https://example.com --code promo1 --replace] *)
Definition replace_opts : gmap str optval :=
  add_opts [(lit "url", example_url); (lit "code", promo1); (lit "replace", OTrue)].

(** [add --url https://example.com] *)
Definition gen_opts : gmap str optval := add_opts [(lit "url", example_url)].

(** [remove --code promo1] and [remove --code nope] *)
Definition remove_opts (code : string) : gmap str optval :=
  list_to_map [(lit "cmd", OStr (lit "remove")); (lit "code", OStr (lit code))].

Definition replaced_world : world :=
  fst (cmd_add sample replace_opts sample_file sample_data sample_world).

Definition generated_world : world :=
  fst (cmd_add sample gen_opts sample_file sample_data sample_world).

Definition removed_world : world :=
  fst (cmd_remove sample (remove_opts "promo1") sample_file sample_data sample_world).

(** A platform on which, as for IEEE doubles, the literal [1e400] denotes
    no finite number; a record that holds it, and the file it is loaded
    from. *)
Definition overflow : platform :=
  {| Math_random := Math_random sample;
     URL_parses := URL_parses sample;
     sha256_hex := sha256_hex sample;
     now_ISO := now_ISO sample;
     path_resolve := path_resolve sample;
     DEFAULT_FILE := DEFAULT_FILE sample;
     SyntaxError_message := SyntaxError_message sample;
     ENOENT_message := ENOENT_message sample;
     fault_message := fault_message sample;
     Number_isFinite := fun l => negb (bool_decide (l = lit "1e400"));
     Number_toString := Number_toString sample |}.

Definition big_data : list value :=
  [VObj [(lit "code", VStr (lit "big"));
         (lit "url", VStr (lit "https://example.com"));
         (lit "hits", VNum (lit "1e400"))]].

Definition big_world : world :=
  World {[ sample_file := saved sample big_data ]} 0 [] 0.

(** A record whose URL is an object with a property [toString]. *)
Definition opaque_url : value :=
  VObj [(lit "code", VStr (lit "a")); (lit "url", VObj [(lit "toString", VNull)])].

(** A mapping file that holds an object instead of an array. *)
Definition object_world : world := World {[ sample_file := lit "{}" ]} 0 [] 0.

(** [add --code promo1], [add --url https://example.com], [list] and
    [help] as command lines. *)
Definition no_url_argv : list str := node_argv ["add"; "--code"; "promo1"]%string.
Definition gen_argv : list str := node_argv ["add"; "--url"; "https://example.com"]%string.
Definition list_argv : list str := node_argv ["list"%string].
Definition help_argv : list str := node_argv ["help"%string].

(** [add --url https://example.com --code fresh1] *)
Definition fresh1 : optval := OStr (lit "fresh1").

Definition fresh_opts : gmap str optval :=
  add_opts [(lit "url", example_url); (lit "code", fresh1)].

Definition fresh_world : world :=
  fst (cmd_add sample fresh_opts sample_file sample_data sample_world).

(** [add --url https://example.com --code] *)
Definition flag_opts : gmap str optval :=
  add_opts [(lit "url", example_url); (lit "code", OTrue)].

Definition flag_world : world :=
  fst (cmd_add sample flag_opts sample_file sample_data sample_world).

(** A record without a code. *)
Definition codeless : value := VObj [(lit "url", VStr (lit "https://example.com"))].

(** [add --url https://example.com --password s3cret] *)
Definition secret_opts : gmap str optval :=
  add_opts [(lit "url", example_url); (lit "password", OStr (lit "s3cret"))].

Definition secret_world : world :=
  fst (cmd_add sample secret_opts sample_file sample_data sample_world).

(** ** Examples *)

Example add_then_list :
  let w1 := run sample (main sample (node_argv
              ["add"; "--url"; "https://example.com"; "--code"; "promo1"]%string))
              (World ∅ 0 [] 0) in
  let w2 := run sample (main sample (node_argv ["list"%string])) w1 in
  trace w2 = trace w1 ++ [Log (lit "promo1       https://example.com")]
  /\ exitCode w2 = 0.
Proof. vm_compute. split; reflexivity. Qed.

Example add_without_valid_url :
  let w1 := run sample (main sample (node_argv ["add"; "--url"; "not-a-url"]%string))
              sample_world in
  files w1 = files sample_world /\ exitCode w1 = 1
  /\ trace w1 = [Err (lit "URL 非法，请包含协议，如 https://example.com")].
Proof. vm_compute. repeat split; reflexivity. Qed.

Example locale_option :
  parseLocales
    (Some (OStr (lit "zh-CN=https://a.example/?x=1, en = https://b.example ,bad,=x,,__proto__=y")))
    sample_world
  = (sample_world,
     Ok (VObj [(lit "zh-CN", VStr (lit "https://a.example/?x=1"));
               (lit "en", VStr (lit "https://b.example"))])).
Proof. vm_compute. reflexivity. Qed.

Example parse_numbers_and_literals :
  JSON_parse (lit " [1.5e3, -0, null, true, [], {}] ")
  = Some (VArr [VNum (lit "1.5e3"); VNum (lit "-0"); VNull; VBool true; VArr []; VObj []]).
Proof. vm_compute. reflexivity. Qed.

Example parse_rejects_trailing_comma : JSON_parse (lit "[1,]") = None.
Proof. vm_compute. reflexivity. Qed.

Example first_candidate_taken :
  getRandomCode sample sample_data sample_world
  = (advance 10 sample_world, Ok (lit "789ab")).
Proof. vm_compute. reflexivity. Qed.

Example big_data_loaded :
  loadMappings overflow sample_file big_world = (big_world, Ok big_data)
  /\ files (run overflow (saveMappings overflow sample_file big_data) big_world) !! sample_file
     = Some (saved sample
               [VObj [(lit "code", VStr (lit "big"));
                      (lit "url", VStr (lit "https://example.com"));
                      (lit "hits", VNull)]]).
Proof. vm_compute. split; reflexivity. Qed.

Example list_unprintable_url :
  let w1 := run sample (cmd_list sample [opaque_url]) sample_world in
  trace w1 = [Err (fault_message sample NotPrimitive)] /\ exitCode w1 = 1.
Proof. vm_compute. split; reflexivity. Qed.

Example lit_ascii : lit "a=b" = [97; 61; 98].
Proof. reflexivity. Qed.

Example lit_cjk : lit "短码" = [30701; 30721].
Proof. reflexivity. Qed.

Example split_commas : split (ch ",") (lit "a,,b") = [lit "a"; []; lit "b"].
Proof. reflexivity. Qed.

Example trim_both : trim (lit "  en ") = lit "en".
Proof. reflexivity. Qed.

(** ** Strings: splitting and joining *)

Lemma split_nonempty sep s : split sep s <> [].
Proof.
  destruct s as [|c r]; simpl; [discriminate|].
  destruct (c =? sep); [discriminate|].
  destruct (split sep r); discriminate.
Qed.

Lemma split_cut sep s :
  split sep s = match cut sep s with
                | Some (a, b) => a :: split sep b
                | None => [s]
                end.
Proof.
  induction s as [|c r IH]; simpl; [reflexivity|].
  destruct (c =? sep); [reflexivity|].
  rewrite IH. destruct (cut sep r) as [[a b]|]; reflexivity.
Qed.

Lemma join_split sep s : join [sep] (split sep s) = s.
Proof.
  induction s as [|c r IH]; simpl; [reflexivity|].
  destruct (N.eqb_spec c sep) as [->|Hne].
  - pose proof (split_nonempty sep r) as Hs.
    destruct (split sep r) as [|p ps]; [contradiction|].
    simpl in *. rewrite IH. reflexivity.
  - destruct (split sep r) as [|p ps] eqn:E; [exfalso; eapply split_nonempty; eassumption|].
    simpl in IH. destruct ps; simpl in *; rewrite <- IH; reflexivity.
Qed.

Lemma parseLocales_pair_cut map pair :
  parseLocales_pair map pair =
  fold_left (fun m e => obj_assign m (fst e) (VStr (snd e))) (locale_entry pair) map.
Proof.
  unfold parseLocales_pair, locale_entry. rewrite split_cut.
  destruct (cut (ch "=") pair) as [[lang url]|] eqn:E.
  - case_bool_decide; [reflexivity|]. simpl.
    assert (length (split (ch "=") url) <> O) as Hlen.
    { pose proof (split_nonempty (ch "=") url). destruct (split (ch "=") url); [contradiction|discriminate]. }
    rewrite (bool_decide_eq_false_2 _ Hlen).
    change (lit "=") with [ch "="]. rewrite join_split. reflexivity.
  - simpl. rewrite orb_true_r. reflexivity.
Qed.

Lemma parseLocales_fold pairs map :
  fold_left parseLocales_pair pairs map =
  fold_left (fun m e => obj_assign m (fst e) (VStr (snd e))) (flat_map locale_entry pairs) map.
Proof.
  revert map. induction pairs as [|p ps IH]; intros map; simpl; [reflexivity|].
  rewrite fold_left_app, <- parseLocales_pair_cut. apply IH.
Qed.

(** ** Callbacks over a record set

    On an array of objects reading [item.code] cannot throw, and the array
    methods with a callback are the pure list functions. *)

Lemma bind_ok {A B} (m : M A) (k : A -> M B) w w' a :
  m w = (w', Ok a) -> bind m k w = k a w'.
Proof. intros H. unfold bind. rewrite H. reflexivity. Qed.

Lemma bind_throw {A B} (m : M A) (k : A -> M B) w w' e :
  m w = (w', Throw e) -> bind m k w = (w', Throw e).
Proof. intros H. unfold bind. rewrite H. reflexivity. Qed.

Lemma record_set_cons item data :
  record_set (item :: data) = true -> is_object item = true /\ record_set data = true.
Proof. unfold record_set. simpl. intros H. apply andb_true_iff in H. exact H. Qed.

Lemma get_prop_object name item w :
  is_object item = true ->
  get_prop name item w =
  (w, Ok (match item with VObj props => assoc_get props name | _ => None end)).
Proof. destruct item; simpl; intros H; try discriminate; reflexivity. Qed.

Lemma has_code_object code item w :
  is_object item = true -> has_code code item w = (w, Ok (coded code item)).
Proof.
  intros H. unfold has_code, bind. rewrite (get_prop_object _ _ _ H).
  destruct item; try discriminate. reflexivity.
Qed.

Lemma some_has_code code data w :
  record_set data = true ->
  some (has_code code) data w = (w, Ok (existsb (coded code) data)).
Proof.
  induction data as [|item rest IH]; intros H; simpl; [reflexivity|].
  apply record_set_cons in H as [Hi Hr].
  unfold bind. rewrite (has_code_object _ _ _ Hi).
  destruct (coded code item); simpl; [reflexivity|]. apply IH, Hr.
Qed.

Lemma findIndex_has_code code data w :
  record_set data = true ->
  findIndex (has_code code) data w = (w, Ok (index_of (coded code) data)).
Proof.
  induction data as [|item rest IH]; intros H; simpl; [reflexivity|].
  apply record_set_cons in H as [Hi Hr].
  unfold bind. rewrite (has_code_object _ _ _ Hi).
  destruct (coded code item); simpl; [reflexivity|].
  fold (@bind (option nat) (option nat)). unfold bind. rewrite (IH Hr). reflexivity.
Qed.

Lemma filterM_has_code code data w :
  record_set data = true ->
  filterM (fun item => do same <- has_code code item; ret (negb same)) data w =
  (w, Ok (List.filter (fun item => negb (coded code item)) data)).
Proof.
  induction data as [|item rest IH]; intros H; simpl; [reflexivity|].
  apply record_set_cons in H as [Hi Hr].
  erewrite bind_ok; [|erewrite bind_ok; [reflexivity|apply has_code_object, Hi]].
  erewrite bind_ok; [|apply IH, Hr]. reflexivity.
Qed.

Lemma mapM_get_code data w :
  record_set data = true ->
  mapM (get_prop (lit "code")) data w = (w, Ok (map code_of data)).
Proof.
  induction data as [|item rest IH]; intros H; simpl; [reflexivity|].
  apply record_set_cons in H as [Hi Hr].
  unfold bind. rewrite (get_prop_object _ _ _ Hi), (IH Hr).
  destruct item; try discriminate. reflexivity.
Qed.

Lemma index_of_None p data : index_of p data = None <-> existsb p data = false.
Proof.
  induction data as [|item rest IH]; simpl; [tauto|].
  destruct (p item); simpl; [split; discriminate|].
  rewrite <- IH. destruct (index_of p rest); simpl; split; congruence.
Qed.

Lemma index_of_Some p data i :
  index_of p data = Some i ->
  exists before item after,
    data = before ++ item :: after /\ length before = i
    /\ p item = true /\ existsb p before = false.
Proof.
  revert i. induction data as [|x rest IH]; intros i; simpl; [discriminate|].
  destruct (p x) eqn:Hp.
  - intros [= <-]. exists [], x, rest. auto.
  - destruct (index_of p rest) as [j|]; simpl; [|discriminate].
    intros [= <-]. destruct (IH j eq_refl) as (b & y & a & -> & <- & Hy & Hb).
    exists (x :: b), y, a. simpl. rewrite Hp, Hb. auto.
Qed.

Lemma insert_middle {A} (before after : list A) (old new : A) :
  <[length before := new]> (before ++ old :: after) = before ++ new :: after.
Proof. induction before as [|x b IH]; simpl; [reflexivity|]. f_equal. exact IH. Qed.

(** ** Code generation *)

Section Generation.
Variable P : platform.

Lemma advance_0 w : advance 0 w = w.
Proof. destruct w; reflexivity. Qed.

Lemma advance_advance n m w : advance n (advance m w) = advance (n + m) w.
Proof. unfold advance; simpl. f_equal. lia. Qed.

Lemma randCode_from_pick chars len s w :
  randCode_from P chars len s w =
  (advance len w, Ok (pick chars (Math_random P) (draws w) len s)).
Proof.
  revert s w. induction len as [|len IH]; intros s w; simpl.
  - rewrite advance_0. reflexivity.
  - unfold bind, random_index. rewrite IH. unfold advance; simpl.
    do 2 f_equal. lia.
Qed.

Lemma char_at_mod (chars : str) x :
  chars <> [] ->
  exists c, char_at chars (x mod length chars)%nat = [c] /\ c ∈ chars.
Proof.
  intros Hne. unfold char_at.
  assert (x mod length chars < length chars)%nat as Hlt.
  { apply Nat.mod_upper_bound. destruct chars; [contradiction|discriminate]. }
  destruct (lookup_lt_is_Some_2 chars _ Hlt) as [c Hc].
  exists c. split; [|eapply list_elem_of_lookup_2, Hc].
  rewrite Hc. reflexivity.
Qed.

Lemma pick_length chars rnd pos len s :
  chars <> [] -> length (pick chars rnd pos len s) = (length s + len)%nat.
Proof.
  intros Hne. revert pos s. induction len as [|len IH]; intros pos s; simpl; [lia|].
  rewrite IH. destruct (char_at_mod chars (rnd pos) Hne) as (c & -> & _).
  rewrite length_app. simpl. lia.
Qed.

Lemma pick_chars (Q : char -> Prop) chars rnd pos len s :
  chars <> [] -> Forall Q chars -> Forall Q s -> Forall Q (pick chars rnd pos len s).
Proof.
  intros Hne Hall. revert pos s. induction len as [|len IH]; intros pos s Hs; simpl; [exact Hs|].
  apply IH. destruct (char_at_mod chars (rnd pos) Hne) as (c & -> & Hc).
  apply Forall_app. split; [exact Hs|]. constructor; [|constructor].
  rewrite Forall_forall in Hall. apply Hall, Hc.
Qed.

Lemma base62Safe_code_chars : forallb is_code_char base62Safe = true.
Proof. reflexivity. Qed.

Lemma candidate_length w i : length (candidate P w i) = 5%nat.
Proof. unfold candidate. rewrite pick_length; [reflexivity|discriminate]. Qed.

Lemma candidate_chars w i : forallb is_code_char (candidate P w i) = true.
Proof.
  apply forallb_forall. intros c Hc. apply list_elem_of_In in Hc.
  assert (Forall (fun c => is_code_char c = true) (candidate P w i)) as H.
  { apply pick_chars; [discriminate| |constructor].
    apply Forall_forall. intros x Hx. apply list_elem_of_In in Hx.
    exact (proj1 (forallb_forall _ _) base62Safe_code_chars x Hx). }
  rewrite Forall_forall in H. apply H, Hc.
Qed.

Lemma randCode_candidate w k :
  randCode P 5 AVOID_AMBIGUOUS (advance (k * 5) w) =
  (advance (S k * 5) w, Ok (candidate P w k)).
Proof.
  unfold randCode, candidate. rewrite randCode_from_pick, advance_advance.
  unfold advance at 2. cbn [draws AVOID_AMBIGUOUS]. rewrite (Nat.add_comm (k * 5)).
  reflexivity.
Qed.

Lemma getRandomCode_loop_find used n k w :
  getRandomCode_loop P n 5 used (advance (k * 5) w) =
  match List.find (fun i => negb (has used (candidate P w i))) (seq k n) with
  | Some i => (advance (S i * 5) w, Ok (candidate P w i))
  | None => (advance ((k + n) * 5) w, Throw GenerationExhausted)
  end.
Proof.
  revert k. induction n as [|n IH]; intros k.
  - cbn [getRandomCode_loop seq List.find]. rewrite Nat.add_0_r. reflexivity.
  - cbn [getRandomCode_loop seq List.find].
    erewrite bind_ok; [|apply randCode_candidate].
    destruct (has used (candidate P w k)); cbn [negb]; [|reflexivity].
    rewrite IH. rewrite Nat.add_succ_r. reflexivity.
Qed.

Lemma getRandomCode_find data w :
  record_set data = true ->
  getRandomCode P data w =
  match List.find (fun i => negb (has (map code_of data) (candidate P w i)))
          (seq 0 MAX_ATTEMPTS) with
  | Some i => (advance (S i * 5) w, Ok (candidate P w i))
  | None => (advance (MAX_ATTEMPTS * 5) w, Throw GenerationExhausted)
  end.
Proof.
  intros H. unfold getRandomCode. generalize MAX_ATTEMPTS as n. intros n.
  erewrite bind_ok; [|apply mapM_get_code, H].
  change (Nat.max CODE_MIN_LEN 4) with 5%nat.
  pose proof (getRandomCode_loop_find (map code_of data) n 0 w) as L.
  change (0 * 5)%nat with O in L. rewrite advance_0 in L. exact L.
Qed.

End Generation.

(** ** The [add] and [remove] commands *)

Lemma strict_equals_iff a code :
  strict_equals a code = true <-> a = Some (value_of code).
Proof.
  destruct code as [|t]; destruct a as [[| [|] | | s | |]|]; simpl;
    try (split; [discriminate|intros [=]]); try (split; congruence).
  rewrite bool_decide_eq_true. split; [intros ->; reflexivity|intros [= ->]; reflexivity].
Qed.

Lemma coded_false_iff code item :
  coded code item = false <-> code_of item <> Some (value_of code).
Proof.
  unfold coded. rewrite <- strict_equals_iff.
  destruct (strict_equals (code_of item) code); split; congruence.
Qed.

Lemma existsb_coded_false code data :
  existsb (coded code) data = false <-> Some (value_of code) ∉ map code_of data.
Proof.
  induction data as [|item rest IH]; simpl.
  - split; [intros _ H; inversion H|reflexivity].
  - rewrite orb_false_iff, IH, coded_false_iff, not_elem_of_cons. split; intros [? ?]; split; congruence.
Qed.

Lemma has_codes data code :
  has (map code_of data) code = existsb (coded (OStr code)) data.
Proof. unfold has. induction data as [|x r IH]; simpl; [reflexivity|]. rewrite IH. reflexivity. Qed.

Lemma filter_all (p : value -> bool) data :
  existsb p data = false -> List.filter (fun item => negb (p item)) data = data.
Proof.
  induction data as [|x r IH]; simpl; [reflexivity|].
  intros H. apply orb_false_iff in H as [-> Hr]. simpl. rewrite (IH Hr). reflexivity.
Qed.

Lemma filter_length_le (p : value -> bool) data :
  (length (List.filter p data) <= length data)%nat.
Proof. induction data as [|x r IH]; simpl; [lia|]. destruct (p x); simpl; lia. Qed.

Lemma filter_shorter (p : value -> bool) data :
  existsb p data = true ->
  (length (List.filter (fun item => negb (p item)) data) < length data)%nat.
Proof.
  induction data as [|x r IH]; simpl; [discriminate|].
  destruct (p x); simpl.
  - intros _. pose proof (filter_length_le (fun item => negb (p item)) r). lia.
  - intros H. specialize (IH H). lia.
Qed.

Lemma filter_none_left (p : value -> bool) data :
  existsb p (List.filter (fun item => negb (p item)) data) = false.
Proof.
  induction data as [|x r IH]; simpl; [reflexivity|].
  destruct (p x) eqn:E; simpl; [exact IH|]. rewrite E, IH. reflexivity.
Qed.

Lemma filter_sublist (p : value -> bool) data : sublist (List.filter p data) data.
Proof.
  induction data as [|x r IH]; simpl; [constructor|].
  destruct (p x); [apply sublist_skip|apply sublist_cons]; exact IH.
Qed.

Lemma or_empty_truthy o : truthy (Some (or_empty o)) = truthy o.
Proof. destruct o as [[|s]|]; simpl; try reflexivity. destruct (bool_decide (s = [])) eqn:E; simpl; rewrite ?E; reflexivity. Qed.

Lemma or_empty_Some o : truthy o = true -> o = Some (or_empty o).
Proof. destruct o as [[|s]|]; simpl; intros H; try discriminate; rewrite ?H; reflexivity. Qed.

Section Commands.
Variable P : platform.

Lemma save_and_log file data line w :
  (saveMappings P file data ;; console_log line) w =
  (World (<[file := saved P data]> (files w)) (draws w)
     (trace w ++ [Written file (saved P data); Log line]) (exitCode w), Ok tt).
Proof.
  unfold bind, saveMappings, writeFile, console_log, emit, saved. cbn [files draws trace exitCode].
  rewrite <- app_assoc. reflexivity.
Qed.

Lemma ensureUnique_fresh code data w :
  record_set data = true -> existsb (coded code) data = false ->
  ensureUnique code data w = (w, Ok tt).
Proof.
  intros Hr Hf. unfold ensureUnique.
  erewrite bind_ok; [|apply some_has_code, Hr]. rewrite Hf. reflexivity.
Qed.

Lemma ensureUnique_duplicate code data w :
  record_set data = true -> existsb (coded code) data = true ->
  ensureUnique code data w = (w, Throw (DuplicateCode code)).
Proof.
  intros Hr Hf. unfold ensureUnique.
  erewrite bind_ok; [|apply some_has_code, Hr]. rewrite Hf. reflexivity.
Qed.

Lemma hashPassword_world pwd w : exists r, hashPassword P pwd w = (w, r).
Proof.
  unfold hashPassword. destruct (truthy pwd); simpl; [|eexists; reflexivity].
  destruct pwd as [[|s]|]; eexists; reflexivity.
Qed.

Lemma parseLocales_world input w : exists r, parseLocales input w = (w, r).
Proof.
  unfold parseLocales. destruct (truthy input); simpl; [|eexists; reflexivity].
  destruct input as [[|s]|]; eexists; reflexivity.
Qed.

(** A successful [add], step by step. *)
Lemma cmd_add_ok opts file data w w' :
  record_set data = true ->
  cmd_add P opts file data w = (w', Ok tt) ->
  exists url code w1 passwordHash locale,
    opts !! lit "url" = Some url /\ truthy (Some url) = true /\ isValidUrl P url = true
    /\ settled P opts data w code w1
    /\ hashPassword P (opts !! lit "password") w1 = (w1, Ok passwordHash)
    /\ parseLocales (opts !! lit "locale") w1 = (w1, Ok locale)
    /\ let data' := placed (truthy (opts !! lit "replace")) code
                      (mapping_of P opts code url passwordHash locale) data in
       w' = World (<[file := saved P data']> (files w1)) (draws w1)
              (trace w1 ++ [Written file (saved P data');
                            Log (lit "已写入 " ++ to_str code ++ lit " -> " ++ to_str url)])
              (exitCode w1).
Proof.
  intros Hr. unfold cmd_add.
  destruct (opts !! lit "url") as [url|] eqn:Hurl; [|discriminate].
  destruct (truthy (Some url)) eqn:Hu; cbn [negb]; [|discriminate].
  destruct (isValidUrl P url) eqn:Hv; cbn [negb]; [|discriminate].
  rewrite or_empty_truthy.
  intros H.
  assert (exists code w1, settled P opts data w code w1 /\
    (do passwordHash <- hashPassword P (opts !! lit "password");
     do locale <- parseLocales (opts !! lit "locale");
     do data' <-
       (if truthy (opts !! lit "replace") then
          do idx <- findIndex (has_code code) data;
          match idx with
          | Some i => ret (<[i := new_mapping code url (now_ISO P) (or_null (opts !! lit "expires")) passwordHash
            (or_null (opts !! lit "mobile")) (or_null (opts !! lit "desktop")) locale]> data)
          | None => ret (data ++ [new_mapping code url (now_ISO P) (or_null (opts !! lit "expires")) passwordHash
            (or_null (opts !! lit "mobile")) (or_null (opts !! lit "desktop")) locale])
          end
        else ret (data ++ [new_mapping code url (now_ISO P) (or_null (opts !! lit "expires")) passwordHash
            (or_null (opts !! lit "mobile")) (or_null (opts !! lit "desktop")) locale]));
     saveMappings P file data' ;;
     console_log (lit "已写入 " ++ to_str code ++ lit " -> " ++ to_str url)) w1 = (w', Ok tt))
    as (code & w1 & Hs & Hrest).
  { destruct (truthy (opts !! lit "code")) eqn:Hc.
    - pose proof (or_empty_Some _ Hc) as Hsome.
      set (code := or_empty (opts !! lit "code")) in *.
      destruct (code_pattern (to_str code)) eqn:Hp; cbn [negb] in H; [|discriminate].
      exists code, w. split.
      + left. repeat split; try assumption.
        * rewrite Hsome in Hc. exact Hc.
        * intros Hrep. rewrite Hrep in H. cbn [negb] in H.
          destruct (existsb (coded code) data) eqn:He; [|reflexivity].
          unfold bind at 1 2 in H. rewrite (ensureUnique_duplicate _ _ _ Hr He) in H.
          discriminate.
      + destruct (truthy (opts !! lit "replace")) eqn:Hrep; cbn [negb] in H.
        * exact H.
        * destruct (existsb (coded code) data) eqn:He.
          -- unfold bind at 1 2 in H. rewrite (ensureUnique_duplicate _ _ _ Hr He) in H.
             discriminate.
          -- unfold bind at 1 2 in H. rewrite (ensureUnique_fresh _ _ _ Hr He) in H.
             exact H.
    - unfold bind at 1 2 in H. rewrite (getRandomCode_find P data w Hr) in H.
      destruct (List.find _ _) as [i|] eqn:Hfind; [|discriminate].
      apply find_some in Hfind as [Hin Hfresh].
      apply in_seq in Hin. apply negb_true_iff in Hfresh. rewrite has_codes in Hfresh.
      exists (OStr (candidate P w i)), (advance (S i * 5) w). split; [|exact H].
      right. split; [exact Hc|]. exists i.
      split; [lia|]. split; [reflexivity|]. split; [exact Hfresh|reflexivity]. }
  exists url, code, w1.
  destruct (hashPassword_world (opts !! lit "password") w1) as [[ph|e] Hh];
    [|rewrite (bind_throw _ _ _ _ _ Hh) in Hrest; discriminate].
  rewrite (bind_ok _ _ _ _ _ Hh) in Hrest.
  destruct (parseLocales_world (opts !! lit "locale") w1) as [[loc|e] Hl];
    [|rewrite (bind_throw _ _ _ _ _ Hl) in Hrest; discriminate].
  rewrite (bind_ok _ _ _ _ _ Hl) in Hrest.
  exists ph, loc. repeat (split; [first [assumption|reflexivity]|]).
  cbv zeta. unfold placed, mapping_of.
  destruct (truthy (opts !! lit "replace")).
  - destruct (index_of (coded code) data) as [i|] eqn:Hi.
    + erewrite bind_ok in Hrest;
        [|erewrite bind_ok; [|apply findIndex_has_code, Hr]; rewrite Hi; reflexivity].
      rewrite save_and_log in Hrest. injection Hrest as <-. reflexivity.
    + erewrite bind_ok in Hrest;
        [|erewrite bind_ok; [|apply findIndex_has_code, Hr]; rewrite Hi; reflexivity].
      rewrite save_and_log in Hrest. injection Hrest as <-. reflexivity.
  - erewrite bind_ok in Hrest; [|reflexivity].
    rewrite save_and_log in Hrest. injection Hrest as <-. reflexivity.
Qed.

(** [main] reads the options, resolves and loads the file, and runs the
    case of its [switch] that the command names. *)
Lemma main_dispatch argv w file data :
  resolve_file P (parseArgs argv) w = (w, Ok file) ->
  loadMappings P file w = (w, Ok data) ->
  main P argv w =
  match parseArgs argv !! lit "cmd" with
  | Some (OStr cmd) =>
      if bool_decide (cmd = lit "add") then cmd_add P (parseArgs argv) file data w
      else if bool_decide (cmd = lit "remove") then cmd_remove P (parseArgs argv) file data w
      else if bool_decide (cmd = lit "list") then cmd_list P data w
      else printHelp w
  | _ => printHelp w
  end.
Proof.
  intros Hf Hl. unfold main.
  rewrite (bind_ok _ _ _ _ _ Hf), (bind_ok _ _ _ _ _ Hl).
  destruct (parseArgs argv !! lit "cmd") as [[|cmd]|]; try reflexivity.
  repeat case_bool_decide; reflexivity.
Qed.

End Commands.

(** ** Blank files *)

Lemma trimStart_nil s : trimStart s = [] <-> forallb is_space s = true.
Proof.
  induction s as [|c r IH]; simpl; [tauto|].
  destruct (is_space c); simpl; [exact IH|]. split; discriminate.
Qed.

Lemma trimStart_snoc s c : is_space c = false -> trimStart (s ++ [c]) <> [].
Proof.
  intros Hc. induction s as [|x r IH]; simpl.
  - rewrite Hc. discriminate.
  - destruct (is_space x); [exact IH|discriminate].
Qed.

Lemma trimStart_head s c r : trimStart s = c :: r -> is_space c = false.
Proof.
  induction s as [|x t IH]; simpl; [discriminate|].
  destruct (is_space x) eqn:E; [exact IH|]. intros [= <- <-]. exact E.
Qed.

Lemma trim_nil s : trim s = [] <-> forallb is_space s = true.
Proof.
  unfold trim, trimEnd. rewrite <- trimStart_nil.
  destruct (trimStart s) as [|c r] eqn:E; [simpl; tauto|].
  split; [|discriminate]. intros H. exfalso.
  apply (f_equal (@rev char)) in H. rewrite rev_involutive in H. simpl in H.
  eapply trimStart_snoc; [eapply trimStart_head, E|exact H].
Qed.


(** ** JSON text read back

    [JSON.parse] undoes [JSON.stringify] on plain values. *)

Lemma value_induction (Q : value -> Prop) :
  Q VNull -> (forall b, Q (VBool b)) -> (forall l, Q (VNum l)) -> (forall s, Q (VStr s)) ->
  (forall items, Forall Q items -> Q (VArr items)) ->
  (forall props, Forall (fun kv => Q (snd kv)) props -> Q (VObj props)) ->
  forall v, Q v.
Proof.
  intros Hnull Hbool Hnum Hstr Harr Hobj.
  fix IH 1. intros [| b | l | s | items | props].
  - exact Hnull.
  - apply Hbool.
  - apply Hnum.
  - apply Hstr.
  - apply Harr. induction items as [|x r IHr]; constructor; [apply IH|exact IHr].
  - apply Hobj. induction props as [|[k x] r IHr]; constructor; [apply IH|exact IHr].
Qed.

Lemma hex_value_digit d : d < 16 -> hex_value (hex_digit d) = Some d.
Proof.
  intros H. unfold hex_value, hex_digit, is_digit.
  destruct (N.ltb_spec d 10).
  - replace (48 <=? 48 + d) with true by (symmetry; apply N.leb_le; lia).
    replace (48 + d <=? 57) with true by (symmetry; apply N.leb_le; lia).
    simpl. f_equal. lia.
  - replace (87 + d <=? 57) with false by (symmetry; apply N.leb_gt; lia).
    rewrite andb_false_r.
    replace (97 <=? 87 + d) with true by (symmetry; apply N.leb_le; lia).
    replace (87 + d <=? 102) with true by (symmetry; apply N.leb_le; lia).
    simpl. f_equal. lia.
Qed.

Lemma hex4_escape c :
  c < 65536 ->
  hex4 (hex_digit (c / 4096 mod 16)) (hex_digit (c / 256 mod 16))
       (hex_digit (c / 16 mod 16)) (hex_digit (c mod 16)) = Some c.
Proof.
  intros H. unfold hex4.
  rewrite !hex_value_digit by (apply N.mod_lt; discriminate).
  f_equal.
  change 4096 with (16 * 16 * 16). change 256 with (16 * 16).
  rewrite <- !N.Div0.div_div.
  pose proof (N.div_mod c 16). pose proof (N.div_mod (c / 16) 16).
  pose proof (N.div_mod (c / 16 / 16) 16).
  assert (c / 16 / 16 / 16 < 16).
  { rewrite !N.Div0.div_div. apply N.Div0.div_lt_upper_bound; exact H. }
  rewrite (N.mod_small (c / 16 / 16 / 16)) by assumption.
  lia.
Qed.

Ltac cmp :=
  repeat match goal with
    | |- context [N.eqb ?a ?b] => destruct (N.eqb_spec a b); try lia
    | |- context [N.ltb ?a ?b] => destruct (N.ltb_spec a b); try lia
    | |- context [N.leb ?a ?b] => destruct (N.leb_spec a b); try lia
    end.

Lemma parse_plain_char c t :
  c <> 34 -> c <> 92 -> 32 <= c ->
  parse_string_chars (c :: t) = consume c (parse_string_chars t).
Proof. intros. cbn [parse_string_chars]. cmp. reflexivity. Qed.

Lemma parse_unicode_escape c t :
  c < 65536 ->
  parse_string_chars (unicode_escape c ++ t) = consume c (parse_string_chars t).
Proof.
  intros H. unfold unicode_escape. cbn [app parse_string_chars].
  change (92 =? 34) with false. change (92 =? 92) with true. change (117 =? 117) with true.
  cbv iota. rewrite (hex4_escape c H). reflexivity.
Qed.

Lemma parse_quote_char c t :
  parse_string_chars (quote_char c ++ t) = consume c (parse_string_chars t).
Proof.
  unfold quote_char.
  destruct (N.eqb_spec c 8) as [->|]; [reflexivity|].
  destruct (N.eqb_spec c 9) as [->|]; [reflexivity|].
  destruct (N.eqb_spec c 10) as [->|]; [reflexivity|].
  destruct (N.eqb_spec c 12) as [->|]; [reflexivity|].
  destruct (N.eqb_spec c 13) as [->|]; [reflexivity|].
  destruct (N.eqb_spec c 34) as [->|]; [reflexivity|].
  destruct (N.eqb_spec c 92) as [->|]; [reflexivity|].
  destruct (N.ltb_spec c 32).
  - apply parse_unicode_escape. lia.
  - apply parse_plain_char; assumption.
Qed.

Lemma parse_quote_chars s rest :
  parse_string_chars (quote_chars s ++ 34 :: rest) = Some (s, rest).
Proof.
  remember (length s) as n eqn:Hn.
  assert (length s <= n)%nat as Hle by lia. clear Hn.
  revert s Hle. induction n as [|n IH]; intros s Hle.
  { destruct s; [reflexivity|simpl in Hle; lia]. }
  destruct s as [|c r]; [reflexivity|]. simpl in Hle.
  cbn [quote_chars].
  destruct (is_leading_surrogate c) eqn:Hlead.
  - unfold is_leading_surrogate in Hlead. apply andb_true_iff in Hlead as [H1 H2].
    apply N.leb_le in H1, H2.
    destruct r as [|d r'].
    + rewrite parse_unicode_escape by lia. reflexivity.
    + destruct (is_trailing_surrogate d) eqn:Htrail.
      * unfold is_trailing_surrogate in Htrail. apply andb_true_iff in Htrail as [H3 H4].
        apply N.leb_le in H3, H4.
        cbn [app]. rewrite !parse_plain_char by lia.
        rewrite IH by (simpl in Hle; lia). reflexivity.
      * rewrite <- app_assoc, parse_unicode_escape by lia.
        rewrite IH by lia. reflexivity.
  - destruct (is_trailing_surrogate c) eqn:Htrail.
    + unfold is_trailing_surrogate in Htrail. apply andb_true_iff in Htrail as [H3 H4].
      apply N.leb_le in H3, H4.
      rewrite <- app_assoc, parse_unicode_escape by lia.
      rewrite IH by lia. reflexivity.
    + rewrite <- app_assoc, parse_quote_char. rewrite IH by lia. reflexivity.
Qed.

Lemma skip_ws_indent indent s :
  forallb is_json_ws indent = true -> skip_ws (indent ++ s) = skip_ws s.
Proof.
  induction indent as [|c r IH]; simpl; [reflexivity|].
  intros H. apply andb_true_iff in H as [-> Hr]. apply IH, Hr.
Qed.

Lemma skip_ws_head c s : is_json_ws c = false -> skip_ws (c :: s) = c :: s.
Proof. intros H. simpl. rewrite H. reflexivity. Qed.

Lemma fold_assoc_set (members acc : list (str * value)) :
  NoDup (map fst (acc ++ members)) ->
  fold_left (fun a kv => assoc_set a (fst kv) (snd kv)) members acc = acc ++ members.
Proof.
  revert acc. induction members as [|[k v] r IH]; intros acc Hnd; simpl.
  - rewrite app_nil_r. reflexivity.
  - assert (assoc_set acc k v = acc ++ [(k, v)]) as ->.
    { rewrite map_app in Hnd. apply NoDup_app in Hnd as (_ & Hdis & _).
      assert (k ∉ map fst acc) as Hk by (intros Hin; apply (Hdis k Hin); simpl; left).
      clear -Hk. induction acc as [|[k' v'] a IHa]; simpl; [reflexivity|].
      simpl in Hk. apply not_elem_of_cons in Hk as [Hne Hk].
      rewrite bool_decide_eq_false_2 by congruence. rewrite (IHa Hk). reflexivity. }
    rewrite IH; rewrite <- app_assoc; [reflexivity|exact Hnd].
Qed.

Lemma object_of_distinct members :
  NoDup (map fst members) -> object_of members = VObj members.
Proof. intros H. unfold object_of. rewrite (fold_assoc_set members []); [reflexivity|exact H]. Qed.

Lemma join_cons2 (sep p q : str) ps : join sep (p :: q :: ps) = p ++ sep ++ join sep (q :: ps).
Proof. reflexivity. Qed.

Lemma join_length_elem {A} (g : A -> str) sep items x :
  x ∈ items -> (length (g x) <= length (join sep (map g items)))%nat.
Proof.
  induction items as [|y r IH]; intros Hin; [inversion Hin|].
  destruct r as [|z r'].
  - apply list_elem_of_singleton in Hin. subst. simpl. lia.
  - cbn [map] in *. rewrite join_cons2, !length_app.
    apply elem_of_cons in Hin as [->|Hin]; [lia|]. specialize (IH Hin). lia.
Qed.

Lemma join_length_count {A} (g : A -> str) sep items :
  (forall x, x ∈ items -> g x <> []) ->
  (length items <= length (join sep (map g items)))%nat.
Proof.
  induction items as [|y r IH]; intros Hne; [simpl; lia|].
  assert (g y <> []) as Hy by (apply Hne; left).
  assert (1 <= length (g y))%nat as Hly by (destruct (g y); [contradiction|simpl; lia]).
  destruct r as [|z r'].
  - simpl. lia.
  - cbn [map] in *. rewrite join_cons2, !length_app.
    assert (length (z :: r') <= length (join sep (g z :: map g r')))%nat
      by (apply IH; intros x Hx; apply Hne; right; exact Hx).
    simpl in *. lia.
Qed.

Section RoundTrip.
Variable fin : str -> bool.
Variable ts : str -> str.

Local Abbreviation print := (stringify_at fin ts).

Lemma print_head v indent :
  plain v = true ->
  exists c t, print indent v = c :: t /\ is_json_ws c = false /\ c <> 93 /\ c <> 125.
Proof.
  destruct v as [| [|] | l | s | [|x xs] | [|kv props]]; intros H; try discriminate;
    eexists _, _; (split; [reflexivity|]); repeat split; discriminate.
Qed.

Lemma print_array indent x xs :
  print indent (VArr (x :: xs)) =
  91 :: nl ++ (indent ++ gap)
  ++ join (44 :: nl ++ (indent ++ gap)) (map (print (indent ++ gap)) (x :: xs))
  ++ nl ++ indent ++ [93].
Proof. reflexivity. Qed.

Lemma print_object indent kv props :
  print indent (VObj (kv :: props)) =
  123 :: nl ++ (indent ++ gap)
  ++ join (44 :: nl ++ (indent ++ gap))
       (map (fun kv => quote (fst kv) ++ 58 :: 32 :: print (indent ++ gap) (snd kv)) (kv :: props))
  ++ nl ++ indent ++ [125].
Proof. reflexivity. Qed.

Lemma parse_value_array f r :
  parse_value (S f) (91 :: r) =
  match skip_ws r with
  | c1 :: r2 =>
      if c1 =? 93 then Some (VArr [], r2)
      else match parse_elements (parse_value f) (length r) (skip_ws r) with
           | Some (items, r3) => Some (VArr items, r3)
           | None => None
           end
  | [] => None
  end.
Proof. reflexivity. Qed.

Lemma parse_value_object f r :
  parse_value (S f) (123 :: r) =
  match skip_ws r with
  | c1 :: r2 =>
      if c1 =? 125 then Some (VObj [], r2)
      else match parse_members (parse_value f) (length r) (skip_ws r) with
           | Some (members, r3) => Some (object_of members, r3)
           | None => None
           end
  | [] => None
  end.
Proof. reflexivity. Qed.

Lemma skip_ws_nl_indent inner s c t :
  forallb is_json_ws inner = true -> s = c :: t -> is_json_ws c = false ->
  skip_ws (nl ++ inner ++ s) = s.
Proof.
  intros Hi -> Hc. change (nl ++ inner ++ c :: t) with (10 :: (inner ++ c :: t)).
  cbn [skip_ws]. change (is_json_ws 10) with true. cbv iota.
  rewrite (skip_ws_indent _ _ Hi). apply skip_ws_head, Hc.
Qed.

Lemma parse_elements_print f inner close rest items n :
  forallb is_json_ws inner = true ->
  skip_ws close = 93 :: rest ->
  items <> [] ->
  Forall (fun x => plain x = true /\
            forall more, parse_value f (print inner x ++ more) = Some (x, more)) items ->
  (length items <= n)%nat ->
  parse_elements (parse_value f) n
    (join (44 :: nl ++ inner) (map (print inner) items) ++ close) = Some (items, rest).
Proof.
  intros Hi Hclose. revert n. induction items as [|x xs IH]; intros n Hne Hall Hn; [contradiction|].
  apply Forall_cons in Hall as [[Hpx Hx] Hxs].
  destruct n as [|n]; [simpl in Hn; lia|]. cbn [parse_elements].
  destruct xs as [|y ys].
  - cbn [map join]. rewrite Hx, Hclose. reflexivity.
  - cbn [map]. rewrite join_cons2, <- !app_assoc, Hx.
    change ((44 :: nl ++ inner) ++ ?s) with (44 :: (nl ++ inner) ++ s).
    cbn [app skip_ws]. change (is_json_ws 44) with false. cbv iota.
    change (44 =? 44) with true. cbv iota.
    assert (exists c t, join (44 :: nl ++ inner) (print inner y :: map (print inner) ys) ++ close
                        = c :: t /\ is_json_ws c = false) as (c & t & Heq & Hc).
    { apply Forall_cons in Hxs as [[Hpy _] _].
      destruct (print_head y inner Hpy) as (c & t & Hp & Hc & _).
      exists c. destruct ys as [|z zs].
      - cbn [map join]. rewrite Hp. eexists. split; [reflexivity|exact Hc].
      - cbn [map]. rewrite join_cons2, Hp. eexists. split; [reflexivity|exact Hc]. }
    rewrite <- app_assoc.
    rewrite (skip_ws_nl_indent inner _ c t Hi Heq Hc).
    change (print inner y :: map (print inner) ys) with (map (print inner) (y :: ys)).
    rewrite (IH n); [reflexivity|discriminate|exact Hxs|simpl in *; lia].
Qed.

Lemma parse_members_print f inner close rest props n :
  forallb is_json_ws inner = true ->
  skip_ws close = 125 :: rest ->
  props <> [] ->
  Forall (fun kv => plain (snd kv) = true /\
            forall more, parse_value f (print inner (snd kv) ++ more) = Some (snd kv, more)) props ->
  (length props <= n)%nat ->
  parse_members (parse_value f) n
    (join (44 :: nl ++ inner)
       (map (fun kv => quote (fst kv) ++ 58 :: 32 :: print inner (snd kv)) props) ++ close)
  = Some (props, rest).
Proof.
  intros Hi Hclose. revert n. induction props as [|[k x] xs IH]; intros n Hne Hall Hn; [contradiction|].
  apply Forall_cons in Hall as [[Hpx Hx] Hxs]. cbn [fst snd] in Hpx, Hx.
  destruct n as [|n]; [simpl in Hn; lia|].
  assert (forall more,
    parse_members (parse_value f) (S n) ((quote k ++ 58 :: 32 :: print inner x) ++ more) =
    match skip_ws more with
    | d :: r4 =>
        if d =? 44 then consume (k, x) (parse_members (parse_value f) n (skip_ws r4))
        else if d =? 125 then Some ([(k, x)], r4)
        else None
    | [] => None
    end) as Hstep.
  { intros more. unfold quote. cbn [parse_members app].
    change (34 =? 34) with true. cbv iota.
    rewrite <- !app_assoc. cbn [app]. rewrite parse_quote_chars.
    cbn [skip_ws]. change (is_json_ws 58) with false. cbv iota.
    change (58 =? 58) with true. cbv iota.
    change (32 :: print inner x ++ more) with ([32] ++ (print inner x ++ more)).
    rewrite skip_ws_indent by reflexivity.
    destruct (print_head x inner Hpx) as (c & t & Hp & Hc & _).
    replace (skip_ws (print inner x ++ more)) with (print inner x ++ more)
      by (rewrite Hp; cbn [app]; symmetry; apply skip_ws_head, Hc).
    rewrite Hx. reflexivity. }
  destruct xs as [|[k' y] ys].
  - cbn [map join fst snd]. rewrite Hstep, Hclose. reflexivity.
  - cbn [map fst snd]. rewrite join_cons2, <- (app_assoc _ _ close), Hstep.
    rewrite <- app_assoc.
    change ((44 :: nl ++ inner) ++ ?s) with (44 :: (nl ++ inner) ++ s).
    cbn [skip_ws]. change (is_json_ws 44) with false. cbv iota.
    change (44 =? 44) with true. cbv iota.
    assert (exists c t,
      join (44 :: nl ++ inner)
        ((quote k' ++ 58 :: 32 :: print inner y)
         :: map (fun kv => quote (fst kv) ++ 58 :: 32 :: print inner (snd kv)) ys) ++ close
      = c :: t /\ is_json_ws c = false) as (c & t & Heq & Hc).
    { exists 34. destruct ys as [|z zs].
      - cbn [map join]. unfold quote. eexists. split; [reflexivity|reflexivity].
      - cbn [map]. rewrite join_cons2. unfold quote. eexists. split; [reflexivity|reflexivity]. }
    rewrite <- app_assoc.
    match goal with |- context [skip_ws ?s] =>
      rewrite (skip_ws_nl_indent inner _ c t Hi Heq Hc : skip_ws s = _) end.
    change ((quote k' ++ 58 :: 32 :: print inner y)
            :: map (fun kv => quote (fst kv) ++ 58 :: 32 :: print inner (snd kv)) ys)
      with (map (fun kv => quote (fst kv) ++ 58 :: 32 :: print inner (snd kv)) ((k', y) :: ys)).
    rewrite (IH n); [reflexivity|discriminate|exact Hxs|simpl in *; lia].
Qed.

Lemma print_nonempty v indent : plain v = true -> print indent v <> [].
Proof. intros H. destruct (print_head v indent H) as (c & t & -> & _). discriminate. Qed.

Lemma forallb_json_ws_inner indent :
  forallb is_json_ws indent = true -> forallb is_json_ws (indent ++ gap) = true.
Proof. intros H. rewrite forallb_app, H. reflexivity. Qed.

Lemma print_array_text indent x xs rest :
  print indent (VArr (x :: xs)) ++ rest =
  91 :: nl ++ (indent ++ gap)
  ++ join (44 :: nl ++ (indent ++ gap)) (map (print (indent ++ gap)) (x :: xs))
  ++ (nl ++ indent ++ 93 :: rest).
Proof. rewrite print_array. cbn [app]. rewrite <- !app_assoc. reflexivity. Qed.

Lemma print_object_text indent kv props rest :
  print indent (VObj (kv :: props)) ++ rest =
  123 :: nl ++ (indent ++ gap)
  ++ join (44 :: nl ++ (indent ++ gap))
       (map (fun kv => quote (fst kv) ++ 58 :: 32 :: print (indent ++ gap) (snd kv)) (kv :: props))
  ++ (nl ++ indent ++ 125 :: rest).
Proof. rewrite print_object. cbn [app]. rewrite <- !app_assoc. reflexivity. Qed.

Lemma parse_array_text f inner body close items rest c t :
  forallb is_json_ws inner = true ->
  body = c :: t -> is_json_ws c = false -> c <> 93 ->
  parse_elements (parse_value f) (length (nl ++ inner ++ body ++ close)) (body ++ close)
  = Some (items, rest) ->
  parse_value (S f) (91 :: nl ++ inner ++ body ++ close) = Some (VArr items, rest).
Proof.
  intros Hi Hb Hc Hc93 He. rewrite parse_value_array.
  rewrite (skip_ws_nl_indent inner (body ++ close) c (t ++ close) Hi); [|rewrite Hb; reflexivity|exact Hc].
  rewrite He. rewrite Hb. cbn [app]. rewrite (proj2 (N.eqb_neq c 93) Hc93). reflexivity.
Qed.

Lemma parse_object_text f inner body close members rest c t :
  forallb is_json_ws inner = true ->
  body = c :: t -> is_json_ws c = false -> c <> 125 ->
  parse_members (parse_value f) (length (nl ++ inner ++ body ++ close)) (body ++ close)
  = Some (members, rest) ->
  parse_value (S f) (123 :: nl ++ inner ++ body ++ close) = Some (object_of members, rest).
Proof.
  intros Hi Hb Hc Hc125 He. rewrite parse_value_object.
  rewrite (skip_ws_nl_indent inner (body ++ close) c (t ++ close) Hi); [|rewrite Hb; reflexivity|exact Hc].
  rewrite He. rewrite Hb. cbn [app]. rewrite (proj2 (N.eqb_neq c 125) Hc125). reflexivity.
Qed.

Lemma skip_ws_close indent c rest :
  forallb is_json_ws indent = true -> is_json_ws c = false ->
  skip_ws (nl ++ indent ++ c :: rest) = c :: rest.
Proof. intros Hi Hc. apply (skip_ws_nl_indent indent (c :: rest) c rest Hi eq_refl Hc). Qed.

Lemma join_head (sep : str) (pieces : list str) p c t :
  p = c :: t -> exists t', join sep (p :: pieces) = c :: t'.
Proof.
  intros ->. destruct pieces as [|q qs]; [exists t; reflexivity|].
  rewrite join_cons2. eexists. reflexivity.
Qed.

Lemma parse_value_print v :
  plain v = true ->
  forall indent rest fuel,
    forallb is_json_ws indent = true ->
    (length (print indent v) <= fuel)%nat ->
    parse_value fuel (print indent v ++ rest) = Some (v, rest).
Proof.
  induction v as [| b | l | s | items IH | props IH] using value_induction;
    intros Hp indent rest fuel Hi Hfuel.
  - destruct fuel as [|f]; [simpl in Hfuel; lia|]. reflexivity.
  - destruct fuel as [|f]; [destruct b; simpl in Hfuel; lia|]. destruct b; reflexivity.
  - discriminate.
  - destruct fuel as [|f]; [simpl in Hfuel; lia|].
    unfold stringify_at, quote. cbn [app parse_value].
    change (34 =? 110) with false. change (34 =? 116) with false.
    change (34 =? 102) with false. change (34 =? 34) with true. cbv iota.
    rewrite <- app_assoc. cbn [app]. rewrite parse_quote_chars. reflexivity.
  - destruct items as [|x xs].
    { destruct fuel as [|f]; [simpl in Hfuel; lia|]. reflexivity. }
    cbn [plain] in Hp.
    rewrite print_array_text. rewrite print_array in Hfuel.
    cbn [length] in Hfuel. rewrite !length_app in Hfuel.
    destruct fuel as [|f]; [lia|].
    set (inner := indent ++ gap) in *.
    assert (forallb is_json_ws inner = true) as Hinner by (apply forallb_json_ws_inner, Hi).
    assert (plain x = true) as Hpx by (cbn [forallb] in Hp; apply andb_true_iff in Hp; tauto).
    destruct (print_head x inner Hpx) as (c & t & Hh & Hc & Hc93 & _).
    destruct (join_head (44 :: nl ++ inner) (map (print inner) xs) _ c t Hh) as (t' & Hb).
    apply (parse_array_text f inner _ _ (x :: xs) rest c t' Hinner Hb Hc Hc93).
    apply (parse_elements_print f inner (nl ++ indent ++ 93 :: rest) rest (x :: xs));
      [exact Hinner| |discriminate| |].
    + apply skip_ws_close; [exact Hi|reflexivity].
    + apply Forall_forall. intros y Hy.
      assert (plain y = true) as Hpy.
      { apply list_elem_of_In in Hy. exact (proj1 (forallb_forall _ _) Hp y Hy). }
      split; [exact Hpy|]. intros more.
      rewrite Forall_forall in IH. apply (IH y Hy Hpy); [exact Hinner|].
      pose proof (join_length_elem (print inner) (44 :: nl ++ inner) (x :: xs) y Hy) as Hlen.
      cbn [map] in *. lia.
    + pose proof (join_length_count (print inner) (44 :: nl ++ inner) (x :: xs)) as Hcount.
      rewrite !length_app.
      assert (forall y, y ∈ x :: xs -> print inner y <> []) as Hne.
      { intros y Hy. apply print_nonempty.
        apply list_elem_of_In in Hy. exact (proj1 (forallb_forall _ _) Hp y Hy). }
      specialize (Hcount Hne). cbn [map] in *. lia.
  - destruct props as [|kv xs].
    { destruct fuel as [|f]; [simpl in Hfuel; lia|]. reflexivity. }
    cbn [plain] in Hp. apply andb_true_iff in Hp as [Hnd Hp].
    apply bool_decide_eq_true in Hnd.
    rewrite print_object_text. rewrite print_object in Hfuel.
    cbn [length] in Hfuel. rewrite !length_app in Hfuel.
    destruct fuel as [|f]; [lia|].
    set (inner := indent ++ gap) in *.
    set (member := fun kv : str * value => quote (fst kv) ++ 58 :: 32 :: print inner (snd kv)) in *.
    assert (forallb is_json_ws inner = true) as Hinner by (apply forallb_json_ws_inner, Hi).
    destruct (join_head (44 :: nl ++ inner) (map member xs) (member kv) 34
                (quote_chars (fst kv) ++ [34] ++ 58 :: 32 :: print inner (snd kv)))
      as (t' & Hb).
    { unfold member, quote. cbn [app]. rewrite <- app_assoc. reflexivity. }
    rewrite <- (object_of_distinct _ Hnd).
    apply (parse_object_text f inner _ _ (kv :: xs) rest 34 t' Hinner Hb); [reflexivity|discriminate|].
    apply (parse_members_print f inner (nl ++ indent ++ 125 :: rest) rest (kv :: xs));
      [exact Hinner| |discriminate| |].
    + apply skip_ws_close; [exact Hi|reflexivity].
    + apply Forall_forall. intros y Hy.
      assert (plain (snd y) = true) as Hpy.
      { apply list_elem_of_In in Hy. exact (proj1 (forallb_forall _ _) Hp y Hy). }
      split; [exact Hpy|]. intros more.
      rewrite Forall_forall in IH. apply (IH y Hy Hpy); [exact Hinner|].
      pose proof (join_length_elem member (44 :: nl ++ inner) (kv :: xs) y Hy) as Hlen.
      unfold member at 1 in Hlen. rewrite length_app in Hlen. cbn [length map] in *.
      lia.
    + pose proof (join_length_count member (44 :: nl ++ inner) (kv :: xs)) as Hcount.
      rewrite !length_app.
      assert (forall y, y ∈ kv :: xs -> member y <> []) as Hne.
      { intros y Hy. unfold member, quote. discriminate. }
      specialize (Hcount Hne). cbn [map] in *. lia.
Qed.

Lemma JSON_parse_stringify v :
  plain v = true -> JSON_parse (JSON_stringify fin ts v ++ nl) = Some v.
Proof.
  intros Hp. unfold JSON_parse, JSON_stringify.
  destruct (print_head v [] Hp) as (c & t & Hh & Hc & _).
  replace (skip_ws (print [] v ++ nl)) with (print [] v ++ nl)
    by (rewrite Hh; symmetry; apply skip_ws_head, Hc).
  rewrite (parse_value_print v Hp [] nl); [reflexivity|reflexivity|].
  rewrite length_app. lia.
Qed.

End RoundTrip.

(** ** Loading *)

Section Loading.
Variable P : platform.

Lemma loadMappings_eq file w :
  loadMappings P file w =
  (w, match files w !! file with
      | None => Ok []
      | Some raw =>
          if forallb is_space raw then Ok []
          else match JSON_parse raw with
               | Some (VArr items) => Ok items
               | Some _ => Throw (ParseError file not_an_array)
               | None => Throw (ParseError file (SyntaxError_message P raw))
               end
      end).
Proof.
  unfold loadMappings, bind, existsSync, readFile.
  destruct (files w !! file) as [raw|] eqn:E.
  - rewrite bool_decide_eq_true_2 by eauto. cbn [negb]. rewrite E.
    destruct (forallb is_space raw) eqn:Hs.
    + rewrite bool_decide_eq_true_2 by (apply trim_nil, Hs). reflexivity.
    + rewrite bool_decide_eq_false_2
        by (intros Ht; apply trim_nil in Ht; congruence).
      unfold try_catch.
      destruct (JSON_parse raw) as [[| | | | |]|]; reflexivity.
  - rewrite bool_decide_eq_false_2 by (intros [? ?]; discriminate). reflexivity.
Qed.

Lemma saved_not_blank data : forallb is_space (saved P data) = false.
Proof. unfold saved, JSON_stringify. destruct data; reflexivity. Qed.

End Loading.

(** ** The record of an [add] *)

Lemma parseLocales_object input w :
  parseLocales (Some (OStr input)) w = (w, Ok (VObj (locale_object (locale_entries input)))).
Proof.
  unfold parseLocales, locale_entries, locale_object. rewrite <- parseLocales_fold.
  destruct input as [|c r]; [reflexivity|].
  replace (truthy (Some (OStr (c :: r)))) with true by reflexivity. reflexivity.
Qed.

Lemma parseLocales_locales o w w' locale :
  parseLocales o w = (w', Ok locale) -> locale = locales_of o.
Proof.
  destruct o as [[|input]|]; [discriminate| |intros H; injection H as _ <-; reflexivity].
  rewrite parseLocales_object. intros H. injection H as _ <-. reflexivity.
Qed.

Lemma hashPassword_digest (P : platform) o w w' passwordHash :
  hashPassword P o w = (w', Ok passwordHash) -> passwordHash = digest_of P o.
Proof.
  unfold hashPassword. destruct o as [[|[|c pwd]]|]; intros H.
  - discriminate H.
  - change (truthy (Some (OStr []))) with false in H. injection H as _ <-. reflexivity.
  - change (truthy (Some (OStr (c :: pwd)))) with true in H. injection H as _ <-. reflexivity.
  - injection H as _ <-. reflexivity.
Qed.

Lemma or_null_given o : or_null o = given o.
Proof. destruct o as [[|[|c s]]|]; reflexivity. Qed.

Lemma mapping_of_record (P : platform) opts code url w1 w2 w3 passwordHash locale :
  hashPassword P (opts !! lit "password") w1 = (w2, Ok passwordHash) ->
  parseLocales (opts !! lit "locale") w2 = (w3, Ok locale) ->
  mapping_of P opts code url passwordHash locale = record_for P opts code url.
Proof.
  intros Hh Hl. apply hashPassword_digest in Hh. apply parseLocales_locales in Hl. subst.
  unfold mapping_of, new_mapping, record_for. rewrite !or_null_given.
  destruct code, url; reflexivity.
Qed.

Lemma settled_code_from (P : platform) opts data w code w1 :
  settled P opts data w code w1 -> code_from P opts w code.
Proof.
  unfold code_from. intros [(Hc & Ht & _)|(Hno & i & Hi & Hcode & _)].
  - rewrite Hc, Ht. reflexivity.
  - rewrite Hno. eauto.
Qed.

(** ** The claims *)

Section Claims.
Variable P : platform.

(** C1, as amended: an [add] with a valid URL and an explicit code that
    matches the code pattern, already occurs in the record set and comes
    without [--replace] fails with the DuplicateCode error; nothing is
    written, the process reports the message and exits with status 1. *)
Theorem add_duplicate_code_rejected opts file data w url code :
  record_set data = true ->
  opts !! lit "url" = Some url -> truthy (Some url) = true -> isValidUrl P url = true ->
  opts !! lit "code" = Some code -> truthy (Some code) = true ->
  code_pattern (to_str code) = true ->
  truthy (opts !! lit "replace") = false ->
  existsb (coded code) data = true ->
  cmd_add P opts file data w = (w, Throw (DuplicateCode code))
  /\ run P (cmd_add P opts file data) w =
     World (files w) (draws w) (trace w ++ [Err (message P (DuplicateCode code))]) 1.
Proof.
  intros Hr Hurl Hu Hv Hcode Hc Hp Hrep Hdup.
  assert (cmd_add P opts file data w = (w, Throw (DuplicateCode code))) as H.
  { unfold cmd_add. rewrite Hurl, Hu, Hv, Hcode. cbn [negb or_empty].
    rewrite !Hc, Hp, Hrep. cbn [negb].
    erewrite bind_throw; [reflexivity|]. erewrite bind_throw; [reflexivity|].
    apply ensureUnique_duplicate; assumption. }
  split; [exact H|]. unfold run. rewrite H. reflexivity.
Qed.

(** C2: when an [add] with [--replace] succeeds, the array it saves is the
    old one with the new record in the place of the first record that
    carries the same code, every other record and the order untouched; if
    no record carries the code, it is the old array with the new record
    appended.  The new record is the one the options describe: the code
    given (or the generated one), the URL, the time of the run, the
    expiry, the digest of the password, the device targets and the locale
    object. *)
Theorem add_replace_in_place opts file data w w' :
  record_set data = true ->
  truthy (opts !! lit "replace") = true ->
  cmd_add P opts file data w = (w', Ok tt) ->
  exists url code data',
    opts !! lit "url" = Some url
    /\ code_from P opts w code
    /\ files w' !! file = Some (saved P data')
    /\ (existsb (coded code) data = true ->
        exists before old after,
          data = before ++ old :: after
          /\ existsb (coded code) before = false /\ coded code old = true
          /\ data' = before ++ record_for P opts code url :: after)
    /\ (existsb (coded code) data = false ->
        data' = data ++ [record_for P opts code url]).
Proof.
  intros Hr Hrep H.
  destruct (cmd_add_ok P _ _ _ _ _ Hr H)
    as (url & code & w1 & ph & loc & Hurl & Hu & Hv & Hs & Hh & Hl & Hw).
  cbv zeta in Hw. rewrite Hrep in Hw.
  rewrite (mapping_of_record P opts code url _ _ _ ph loc Hh Hl) in Hw.
  set (mapping := record_for P opts code url) in *.
  exists url, code, (placed true code mapping data).
  split; [exact Hurl|split; [exact (settled_code_from P _ _ _ _ _ Hs)|split; [|split]]].
  - rewrite Hw. cbn [files]. apply lookup_insert_eq.
  - intros He. unfold placed.
    destruct (index_of (coded code) data) as [i|] eqn:Hi.
    + destruct (index_of_Some _ _ _ Hi) as (before & old & after & -> & <- & Hold & Hb).
      exists before, old, after. rewrite insert_middle. auto.
    + apply index_of_None in Hi. congruence.
  - intros He. unfold placed. apply index_of_None in He. rewrite He. reflexivity.
Qed.

(** C3: if the codes of a record set are pairwise distinct, so are the
    codes of the array a successful [add] saves. *)
Theorem add_preserves_unique_codes opts file data w w' :
  record_set data = true ->
  NoDup (map code_of data) ->
  cmd_add P opts file data w = (w', Ok tt) ->
  exists data',
    files w' !! file = Some (saved P data') /\ NoDup (map code_of data').
Proof.
  intros Hr Hnd H.
  destruct (cmd_add_ok P _ _ _ _ _ Hr H)
    as (url & code & w1 & ph & loc & Hurl & Hu & Hv & Hs & Hh & Hl & Hw).
  cbv zeta in Hw.
  set (mapping := mapping_of P opts code url ph loc) in *.
  exists (placed (truthy (opts !! lit "replace")) code mapping data).
  split; [rewrite Hw; cbn [files]; apply lookup_insert_eq|].
  assert (existsb (coded code) data = false -> NoDup (map code_of (data ++ [mapping]))) as Happ.
  { intros He. rewrite map_app. apply NoDup_app. split; [exact Hnd|]. split.
    - intros c Hc Hin. apply list_elem_of_singleton in Hin. subst c.
      apply existsb_coded_false in He. exact (He Hc).
    - apply NoDup_singleton. }
  unfold placed. destruct (truthy (opts !! lit "replace")) eqn:Hrep.
  - destruct (index_of (coded code) data) as [i|] eqn:Hi.
    + destruct (index_of_Some _ _ _ Hi) as (before & old & after & -> & <- & Hold & Hb).
      rewrite insert_middle. rewrite map_app in *. cbn [map] in *.
      apply strict_equals_iff in Hold. rewrite Hold in Hnd. exact Hnd.
    + apply Happ, index_of_None, Hi.
  - apply Happ. destruct Hs as [(_ & _ & _ & Hf & _)|(_ & i & _ & _ & Hf & _)]; auto.
Qed.

(** C4: when an [add] without an explicit code succeeds, the saved array
    is the old one followed by a record whose code is a string of length
    5 (the larger of the configured minimum 5 and the floor 4), made of
    characters of the code class, and carried by no prior record. *)
Theorem add_generated_code opts file data w w' :
  record_set data = true ->
  truthy (opts !! lit "code") = false ->
  cmd_add P opts file data w = (w', Ok tt) ->
  exists code mapping,
    files w' !! file = Some (saved P (data ++ [mapping]))
    /\ code_of mapping = Some (VStr code)
    /\ length code = Nat.max CODE_MIN_LEN 4 /\ Nat.max CODE_MIN_LEN 4 = 5%nat
    /\ forallb is_code_char code = true
    /\ Forall (fun item => code_of item <> Some (VStr code)) data.
Proof.
  intros Hr Hno H.
  destruct (cmd_add_ok P _ _ _ _ _ Hr H)
    as (url & code & w1 & ph & loc & Hurl & Hu & Hv & Hs & Hh & Hl & Hw).
  cbv zeta in Hw.
  destruct Hs as [(Hcode & Hc & _)|(_ & i & Hi & -> & Hf & ->)].
  { rewrite Hcode, Hc in Hno. discriminate. }
  set (code := candidate P w i) in *.
  set (mapping := mapping_of P opts (OStr code) url ph loc) in *.
  assert (placed (truthy (opts !! lit "replace")) (OStr code) mapping data = data ++ [mapping])
    as Hplaced.
  { unfold placed. destruct (truthy (opts !! lit "replace")); [|reflexivity].
    apply index_of_None in Hf. rewrite Hf. reflexivity. }
  rewrite Hplaced in Hw.
  exists code, mapping. repeat split.
  - rewrite Hw. cbn [files]. apply lookup_insert_eq.
  - apply candidate_length.
  - apply candidate_chars.
  - apply Forall_forall. intros item Hin.
    apply existsb_coded_false in Hf. intros Heq. apply Hf.
    apply list_elem_of_fmap. exists item. split; [symmetry; exact Heq|exact Hin].
Qed.

(** C7: [remove] of a code that no record carries writes nothing: the
    files are as before, the only event is the message on the error stream
    that names the missing code, and the exit status is left as it was. *)
Theorem remove_missing_code opts file data w code :
  record_set data = true ->
  opts !! lit "code" = Some code -> truthy (Some code) = true ->
  existsb (coded code) data = false ->
  run P (cmd_remove P opts file data) w =
  World (files w) (draws w) (trace w ++ [Err (lit "未找到短码 " ++ to_str code)]) (exitCode w).
Proof.
  intros Hr Hcode Hc He. unfold run, cmd_remove. rewrite Hcode, Hc. cbn [negb].
  erewrite bind_ok; [|apply filterM_has_code, Hr].
  rewrite (filter_all _ _ He), bool_decide_eq_true_2 by reflexivity. reflexivity.
Qed.

(** C8: code generation makes at most 10,000 attempts; it returns the
    first candidate that no record carries, and when all 10,000 candidates
    collide it fails with the GenerationExhausted error, whose message asks
    for an explicit [--code]. *)
Theorem getRandomCode_bounded data w :
  record_set data = true ->
  N.of_nat MAX_ATTEMPTS = 10000
  /\ GenerationExhausted = Error (lit "无法生成唯一短码，请手动指定 --code")
  /\ getRandomCode P data w =
     match List.find (fun i => negb (has (map code_of data) (candidate P w i)))
             (seq 0 MAX_ATTEMPTS) with
     | Some i => (advance (S i * 5) w, Ok (candidate P w i))
     | None => (advance (MAX_ATTEMPTS * 5) w, Throw GenerationExhausted)
     end.
Proof.
  intros Hr. split; [|split].
  - unfold MAX_ATTEMPTS. apply N2Nat.id.
  - reflexivity.
  - apply getRandomCode_find, Hr.
Qed.

(** C9: the locale option is split on commas, each pair is cut at its
    first equals sign (later ones stay in the URL), pairs without an equals
    sign or without a tag are skipped, and the remaining pairs are assigned
    in order, trimmed tag to trimmed URL, to an initially empty object (as
    any assignment to an object literal, one to [__proto__] is inert). *)
Theorem parseLocales_entries input w :
  parseLocales (Some (OStr input)) w =
  (w, Ok (VObj (fold_left (fun m e => obj_assign m (fst e) (VStr (snd e)))
                  (locale_entries input) []))).
Proof.
  unfold parseLocales, locale_entries. rewrite <- parseLocales_fold.
  destruct input as [|c r]; [reflexivity|].
  replace (truthy (Some (OStr (c :: r)))) with true by reflexivity. reflexivity.
Qed.

(** C10: [remove] of a code that some record carries saves the array
    without any of the records that carry it, the others in their order. *)
Theorem remove_deletes_all opts file data w code :
  record_set data = true ->
  opts !! lit "code" = Some code -> truthy (Some code) = true ->
  existsb (coded code) data = true ->
  let kept := List.filter (fun item => negb (coded code item)) data in
  run P (cmd_remove P opts file data) w =
    World (<[file := saved P kept]> (files w)) (draws w)
      (trace w ++ [Written file (saved P kept); Log (lit "已删除 " ++ to_str code)])
      (exitCode w)
  /\ existsb (coded code) kept = false
  /\ sublist kept data
  /\ (forall item, item ∈ data -> coded code item = false -> item ∈ kept).
Proof.
  intros Hr Hcode Hc He kept. split; [|split; [|split]].
  - unfold run, cmd_remove. rewrite Hcode, Hc. cbn [negb].
    erewrite bind_ok; [|apply filterM_has_code, Hr]. fold kept.
    pose proof (filter_shorter _ _ He) as Hlt. fold kept in Hlt.
    rewrite bool_decide_eq_false_2 by lia.
    cbn. rewrite <- app_assoc. reflexivity.
  - apply filter_none_left.
  - apply filter_sublist.
  - intros item Hin Hf. apply list_elem_of_In, filter_In. split.
    + apply list_elem_of_In, Hin.
    + rewrite Hf. reflexivity.
Qed.


(** C6: [loadMappings] returns the empty record set when the file is
    absent or holds white space only; otherwise it returns the array the
    text denotes, and fails with a ParseError for text that is not JSON or
    denotes anything but an array; the message of a ParseError names the
    file and the cause. *)
Theorem loadMappings_cases file w :
  loadMappings P file w =
  (w, match files w !! file with
      | None => Ok []
      | Some raw =>
          if forallb is_space raw then Ok []
          else match JSON_parse raw with
               | Some (VArr items) => Ok items
               | Some _ => Throw (ParseError file not_an_array)
               | None => Throw (ParseError file (SyntaxError_message P raw))
               end
      end)
  /\ forall cause,
       message P (ParseError file cause) = lit "无法解析 " ++ file ++ lit ": " ++ cause.
Proof. split; [apply loadMappings_eq|reflexivity]. Qed.

End Claims.

(** ** The theorems at work on the sample registry *)

Lemma sample_codes_distinct : NoDup (map code_of sample_data).
Proof.
  vm_compute. apply NoDup_cons. split; [|apply NoDup_singleton].
  intros H. apply list_elem_of_singleton in H. discriminate.
Defined.

(** C1 as stated fails: without [--url] the duplicate code is never looked
    at, and the error is the one about the missing URL. *)
Lemma add_duplicate_code_claim_fails :
  ~ (forall (P : platform) opts file data w code,
       record_set data = true ->
       opts !! lit "code" = Some code -> truthy (Some code) = true ->
       truthy (opts !! lit "replace") = false ->
       existsb (coded code) data = true ->
       exists w', cmd_add P opts file data w = (w', Throw (DuplicateCode code))
                  /\ files w' = files w).
Proof.
  intros H.
  destruct (H sample no_url_opts sample_file sample_data sample_world promo1)
    as (w' & Hw & _); try (vm_compute; reflexivity).
  vm_compute in Hw. discriminate.
Qed.

Lemma add_duplicate_code_rejected_witness :
  (record_set sample_data = true
   /\ dup_opts !! lit "url" = Some example_url
   /\ isValidUrl sample example_url = true
   /\ dup_opts !! lit "code" = Some promo1
   /\ code_pattern (to_str promo1) = true
   /\ truthy (dup_opts !! lit "replace") = false
   /\ existsb (coded promo1) sample_data = true)
  /\ cmd_add sample dup_opts sample_file sample_data sample_world
     = (sample_world, Throw (DuplicateCode promo1))
  /\ run sample (cmd_add sample dup_opts sample_file sample_data) sample_world
     = World (files sample_world) (draws sample_world)
         (trace sample_world ++ [Err (message sample (DuplicateCode promo1))]) 1.
Proof.
  split; [repeat split; vm_compute; reflexivity|].
  apply (add_duplicate_code_rejected sample dup_opts sample_file sample_data sample_world
           example_url promo1); vm_compute; reflexivity.
Defined.

Lemma add_replace_in_place_witness :
  (record_set sample_data = true
   /\ truthy (replace_opts !! lit "replace") = true
   /\ cmd_add sample replace_opts sample_file sample_data sample_world
      = (replaced_world, Ok tt))
  /\ exists url code data',
       replace_opts !! lit "url" = Some url
       /\ code_from sample replace_opts sample_world code
       /\ files replaced_world !! sample_file = Some (saved sample data')
       /\ (existsb (coded code) sample_data = true ->
           exists before old after,
             sample_data = before ++ old :: after
             /\ existsb (coded code) before = false /\ coded code old = true
             /\ data' = before ++ record_for sample replace_opts code url :: after)
       /\ (existsb (coded code) sample_data = false ->
           data' = sample_data ++ [record_for sample replace_opts code url]).
Proof.
  split; [repeat split; vm_compute; reflexivity|].
  apply (add_replace_in_place sample replace_opts sample_file sample_data sample_world
           replaced_world); vm_compute; reflexivity.
Defined.

Lemma add_preserves_unique_codes_witness :
  (record_set sample_data = true
   /\ NoDup (map code_of sample_data)
   /\ cmd_add sample gen_opts sample_file sample_data sample_world
      = (generated_world, Ok tt))
  /\ exists data',
       files generated_world !! sample_file = Some (saved sample data')
       /\ NoDup (map code_of data').
Proof.
  split; [split; [|split]; [vm_compute; reflexivity|exact sample_codes_distinct|vm_compute; reflexivity]|].
  apply (add_preserves_unique_codes sample gen_opts sample_file sample_data sample_world
           generated_world);
    [vm_compute; reflexivity|exact sample_codes_distinct|vm_compute; reflexivity].
Defined.

Lemma add_generated_code_witness :
  (record_set sample_data = true
   /\ truthy (gen_opts !! lit "code") = false
   /\ cmd_add sample gen_opts sample_file sample_data sample_world
      = (generated_world, Ok tt))
  /\ exists code mapping,
       files generated_world !! sample_file = Some (saved sample (sample_data ++ [mapping]))
       /\ code_of mapping = Some (VStr code)
       /\ length code = Nat.max CODE_MIN_LEN 4 /\ Nat.max CODE_MIN_LEN 4 = 5%nat
       /\ forallb is_code_char code = true
       /\ Forall (fun item => code_of item <> Some (VStr code)) sample_data.
Proof.
  split; [repeat split; vm_compute; reflexivity|].
  apply (add_generated_code sample gen_opts sample_file sample_data sample_world
           generated_world); vm_compute; reflexivity.
Defined.



Lemma remove_missing_code_witness :
  (record_set sample_data = true
   /\ remove_opts "nope" !! lit "code" = Some (OStr (lit "nope"))
   /\ existsb (coded (OStr (lit "nope"))) sample_data = false)
  /\ run sample (cmd_remove sample (remove_opts "nope") sample_file sample_data) sample_world
     = World (files sample_world) (draws sample_world)
         (trace sample_world ++ [Err (lit "未找到短码 " ++ to_str (OStr (lit "nope")))])
         (exitCode sample_world).
Proof.
  split; [repeat split; vm_compute; reflexivity|].
  apply (remove_missing_code sample (remove_opts "nope") sample_file sample_data sample_world
           (OStr (lit "nope"))); vm_compute; reflexivity.
Defined.

Lemma getRandomCode_bounded_witness :
  record_set sample_data = true
  /\ N.of_nat MAX_ATTEMPTS = 10000
  /\ GenerationExhausted = Error (lit "无法生成唯一短码，请手动指定 --code")
  /\ getRandomCode sample sample_data sample_world =
     match List.find (fun i => negb (has (map code_of sample_data) (candidate sample sample_world i)))
             (seq 0 MAX_ATTEMPTS) with
     | Some i => (advance (S i * 5) sample_world, Ok (candidate sample sample_world i))
     | None => (advance (MAX_ATTEMPTS * 5) sample_world, Throw GenerationExhausted)
     end.
Proof.
  split; [vm_compute; reflexivity|].
  apply (getRandomCode_bounded sample sample_data sample_world). vm_compute. reflexivity.
Defined.

Lemma remove_deletes_all_witness :
  (record_set sample_data = true
   /\ remove_opts "promo1" !! lit "code" = Some promo1
   /\ existsb (coded promo1) sample_data = true)
  /\ let kept := List.filter (fun item => negb (coded promo1 item)) sample_data in
     run sample (cmd_remove sample (remove_opts "promo1") sample_file sample_data) sample_world =
       World (<[sample_file := saved sample kept]> (files sample_world)) (draws sample_world)
         (trace sample_world ++ [Written sample_file (saved sample kept);
                                 Log (lit "已删除 " ++ to_str promo1)])
         (exitCode sample_world)
     /\ existsb (coded promo1) kept = false
     /\ sublist kept sample_data
     /\ (forall item, item ∈ sample_data -> coded promo1 item = false -> item ∈ kept).
Proof.
  split; [repeat split; vm_compute; reflexivity|].
  apply (remove_deletes_all sample (remove_opts "promo1") sample_file sample_data sample_world
           promo1); vm_compute; reflexivity.
Defined.

(** * Further properties of the code *)

(** ** What the commands leave alone *)

Lemma silent_ret {A} (a : A) : silent (ret a).
Proof. intros w. reflexivity. Qed.

Lemma silent_throw {A} e : silent (@throw A e).
Proof. intros w. reflexivity. Qed.

Lemma silent_bind {A B} (m : M A) (k : A -> M B) :
  silent m -> (forall a, silent (k a)) -> silent (bind m k).
Proof.
  intros Hm Hk w. unfold bind. specialize (Hm w).
  destruct (m w) as [w1 [a|e]]; simpl in *; [|exact Hm].
  rewrite (Hk a w1). exact Hm.
Qed.

Lemma silent_try_catch {A} (m : M A) (h : exn -> M A) :
  silent m -> (forall e, silent (h e)) -> silent (try_catch m h).
Proof.
  intros Hm Hh w. unfold try_catch. specialize (Hm w).
  destruct (m w) as [w1 [a|e]]; simpl in *; [exact Hm|].
  rewrite (Hh e w1). exact Hm.
Qed.

Lemma silent_careful {A} (m : M A) : silent m -> careful m.
Proof. intros Hm w w' e H. specialize (Hm w). rewrite H in Hm. exact Hm. Qed.

Lemma careful_bind {A B} (m : M A) (k : A -> M B) :
  silent m -> (forall a, careful (k a)) -> careful (bind m k).
Proof.
  intros Hm Hk w w' e. unfold bind. specialize (Hm w).
  destruct (m w) as [w1 [a|e1]]; simpl in *.
  - intros H. rewrite (Hk a w1 w' e H). exact Hm.
  - intros [= <- <-]. exact Hm.
Qed.

Lemma silent_touches {A} file (m : M A) : silent m -> touches_only file m.
Proof. intros Hm w f _. specialize (Hm w). unfold store in Hm. congruence. Qed.

Lemma touches_bind {A B} file (m : M A) (k : A -> M B) :
  touches_only file m -> (forall a, touches_only file (k a)) -> touches_only file (bind m k).
Proof.
  intros Hm Hk w f Hf. unfold bind. specialize (Hm w f Hf).
  destruct (m w) as [w1 [a|e]]; simpl in *; [|exact Hm].
  rewrite (Hk a w1 f Hf). exact Hm.
Qed.

Ltac silence :=
  repeat (intros;
    match goal with
    | |- silent (bind _ _) => apply silent_bind
    | |- silent (try_catch _ _) => apply silent_try_catch
    | |- silent (ret _) => apply silent_ret
    | |- silent (throw _) => apply silent_throw
    | |- silent (if ?c then _ else _) => destruct c
    | |- silent (match ?x with _ => _ end) => destruct x
    | |- silent _ => solve [auto]
    end).

Section Frames.
Variable P : platform.

Lemma silent_existsSync file : silent (existsSync file).
Proof. intros w. reflexivity. Qed.

Lemma silent_readFile file : silent (readFile P file).
Proof. intros w. unfold readFile. destruct (files w !! file); reflexivity. Qed.

Lemma silent_random_index n : silent (random_index P n).
Proof. intros w. reflexivity. Qed.

Lemma silent_randCode len safe : silent (randCode P len safe).
Proof.
  unfold randCode. generalize (if safe then base62Safe else base62) as chars.
  generalize (@nil char) as s. induction len as [|len IH]; intros s chars; cbn [randCode_from].
  - apply silent_ret.
  - apply silent_bind; [apply silent_random_index|intros i; apply IH].
Qed.

Lemma silent_get_prop name item : silent (get_prop name item).
Proof. unfold get_prop. silence. Qed.

Lemma silent_has_code code item : silent (has_code code item).
Proof. unfold has_code. silence. apply silent_get_prop. Qed.

Lemma silent_some f data : (forall item, silent (f item)) -> silent (some f data).
Proof. intros Hf. induction data as [|x r IH]; cbn [some]; silence. Qed.

Lemma silent_findIndex f data : (forall item, silent (f item)) -> silent (findIndex f data).
Proof. intros Hf. induction data as [|x r IH]; cbn [findIndex]; silence. Qed.

Lemma silent_filterM f data : (forall item, silent (f item)) -> silent (filterM f data).
Proof. intros Hf. induction data as [|x r IH]; cbn [filterM]; silence. Qed.

Lemma silent_mapM {B} (f : value -> M B) data :
  (forall item, silent (f item)) -> silent (mapM f data).
Proof. intros Hf. induction data as [|x r IH]; cbn [mapM]; silence. Qed.

Lemma silent_ensureUnique code data : silent (ensureUnique code data).
Proof. unfold ensureUnique. silence. apply silent_some, silent_has_code. Qed.

Lemma silent_hashPassword pwd : silent (hashPassword P pwd).
Proof. unfold hashPassword. silence. Qed.

Lemma silent_parseLocales input : silent (parseLocales input).
Proof. unfold parseLocales. silence. Qed.

Lemma silent_getRandomCode_loop n len used : silent (getRandomCode_loop P n len used).
Proof.
  induction n as [|n IH]; cbn [getRandomCode_loop]; silence. apply silent_randCode.
Qed.

Lemma silent_getRandomCode data : silent (getRandomCode P data).
Proof.
  unfold getRandomCode. apply silent_bind.
  - apply silent_mapM. intros item. apply silent_get_prop.
  - intros used. apply silent_getRandomCode_loop.
Qed.

Lemma silent_loadMappings file : silent (loadMappings P file).
Proof.
  unfold loadMappings. apply silent_bind; [apply silent_existsSync|].
  intros present. destruct (negb present); [apply silent_ret|].
  apply silent_bind; [apply silent_readFile|]. intros raw. silence.
Qed.

Lemma silent_resolve_file opts : silent (resolve_file P opts).
Proof. unfold resolve_file. silence. Qed.

Lemma silent_list_row item : silent (list_row P item).
Proof. unfold list_row. silence; apply silent_get_prop. Qed.
End Frames.

Create HintDb frame.
#[local] Hint Resolve silent_ret silent_throw silent_existsSync silent_readFile
  silent_random_index silent_randCode silent_get_prop silent_has_code silent_some
  silent_findIndex silent_filterM silent_mapM silent_ensureUnique silent_hashPassword
  silent_parseLocales silent_getRandomCode silent_loadMappings silent_resolve_file
  silent_list_row : frame.

Ltac silence' :=
  repeat (intros;
    match goal with
    | |- silent (bind _ _) => apply silent_bind
    | |- silent (filterM _ _) => apply silent_filterM
    | |- silent (mapM _ _) => apply silent_mapM
    | |- silent (if ?c then _ else _) => destruct c
    | |- silent (match ?x with _ => _ end) => destruct x
    | |- silent _ => solve [auto with frame]
    end).

Lemma silent_readonly {A} (m : M A) : silent m -> readonly m.
Proof.
  intros Hm w. specialize (Hm w). unfold store in Hm.
  injection Hm as H1 H2 H3. rewrite H1, H2, H3. auto.
Qed.

Lemma readonly_bind {A B} (m : M A) (k : A -> M B) :
  readonly m -> (forall a, readonly (k a)) -> readonly (bind m k).
Proof.
  intros Hm Hk w. unfold bind. specialize (Hm w).
  destruct (m w) as [w1 [a|e]]; simpl in *; [|exact Hm].
  destruct (Hk a w1) as (H1 & H2 & H3). destruct Hm as (G1 & G2 & G3).
  rewrite H1, H2, H3. auto.
Qed.

Lemma readonly_console_log line : readonly (console_log line).
Proof.
  intros w. unfold console_log, emit; simpl. unfold written.
  rewrite flat_map_app. simpl. rewrite app_nil_r. auto.
Qed.

Section Main.
Variable P : platform.

Lemma careful_save_and_log file data line :
  careful (saveMappings P file data ;; console_log line).
Proof. intros w w' e H. rewrite save_and_log in H. discriminate. Qed.

Lemma touches_save_and_log file data line :
  touches_only file (saveMappings P file data ;; console_log line).
Proof.
  intros w f Hf. rewrite save_and_log. cbn [fst files]. apply lookup_insert_ne. congruence.
Qed.

Lemma careful_console_log line : careful (console_log line).
Proof. intros w w' e H. discriminate. Qed.

Lemma careful_console_error line : careful (console_error line).
Proof. intros w w' e H. discriminate. Qed.

Lemma touches_emit file e : touches_only file (emit e).
Proof. intros w f _. reflexivity. Qed.

Ltac care :=
  repeat (intros;
    match goal with
    | |- careful (bind (saveMappings _ _ _) _) => apply careful_save_and_log
    | |- careful (bind _ _) => apply careful_bind; [solve [silence']|]
    | |- careful (console_log _) => apply careful_console_log
    | |- careful (console_error _) => apply careful_console_error
    | |- careful (throw _) => apply silent_careful, silent_throw
    | |- careful (ret _) => apply silent_careful, silent_ret
    | |- careful (if ?c then _ else _) => destruct c
    | |- careful (match ?x with _ => _ end) => destruct x
    end).

Ltac touch :=
  repeat (intros;
    match goal with
    | |- touches_only _ (bind (saveMappings _ _ _) _) => apply touches_save_and_log
    | |- touches_only _ (bind _ _) => apply touches_bind
    | |- touches_only _ (console_log _) => apply touches_emit
    | |- touches_only _ (console_error _) => apply touches_emit
    | |- touches_only _ (if ?c then _ else _) => destruct c
    | |- touches_only _ (match ?x with _ => _ end) => destruct x
    | |- touches_only _ _ => solve [apply silent_touches; silence']
    end).

Lemma careful_cmd_add opts file data : careful (cmd_add P opts file data).
Proof. unfold cmd_add. care. Qed.

Lemma careful_cmd_remove opts file data : careful (cmd_remove P opts file data).
Proof. unfold cmd_remove. care. Qed.

Lemma careful_cmd_list data : careful (cmd_list P data).
Proof. unfold cmd_list. care. Qed.

Lemma touches_cmd_add opts file data : touches_only file (cmd_add P opts file data).
Proof. unfold cmd_add. touch. Qed.

Lemma touches_cmd_remove opts file data : touches_only file (cmd_remove P opts file data).
Proof. unfold cmd_remove. touch. Qed.

Lemma readonly_cmd_list data : readonly (cmd_list P data).
Proof.
  unfold cmd_list. destruct (bool_decide _); [apply readonly_console_log|].
  apply readonly_bind; [apply silent_readonly; silence'|intros; apply readonly_console_log].
Qed.

Lemma resolve_file_eq opts w :
  resolve_file P opts w =
  (w, if bare_flag (opts !! lit "file")
      then Throw (TypeError (InvalidArgument (lit "paths[0]")))
      else Ok (target_file P opts)).
Proof.
  unfold resolve_file, target_file.
  destruct (opts !! lit "file") as [[|f]|]; try reflexivity.
  destruct (truthy (Some (OStr f))); reflexivity.
Qed.

Lemma careful_main argv : careful (main P argv).
Proof.
  unfold main. apply careful_bind; [apply silent_resolve_file|intros file].
  apply careful_bind; [apply silent_loadMappings|intros data].
  destruct (parseArgs argv !! lit "cmd") as [[|cmd]|]; try apply careful_console_log.
  repeat case_bool_decide;
    [apply careful_cmd_add|apply careful_cmd_remove
    |apply careful_cmd_list|apply careful_console_log].
Qed.

Lemma main_eq argv w :
  main P argv w =
  (if bare_flag (parseArgs argv !! lit "file")
   then (w, Throw (TypeError (InvalidArgument (lit "paths[0]"))))
   else
     let file := target_file P (parseArgs argv) in
     match loadMappings P file w with
     | (w1, Ok data) =>
         match parseArgs argv !! lit "cmd" with
         | Some (OStr cmd) =>
             if bool_decide (cmd = lit "add") then cmd_add P (parseArgs argv) file data w1
             else if bool_decide (cmd = lit "remove")
                  then cmd_remove P (parseArgs argv) file data w1
             else if bool_decide (cmd = lit "list") then cmd_list P data w1
             else printHelp w1
         | _ => printHelp w1
         end
     | (w1, Throw e) => (w1, Throw e)
     end).
Proof.
  unfold main. unfold bind at 1. rewrite resolve_file_eq.
  destruct (bare_flag _); [reflexivity|]. cbv zeta. unfold bind.
  destruct (loadMappings P _ w) as [w1 [data|e]]; [|reflexivity].
  destruct (parseArgs argv !! lit "cmd") as [[|cmd]|]; try reflexivity.
  repeat case_bool_decide; reflexivity.
Qed.

Lemma touches_main argv : touches_only (target_file P (parseArgs argv)) (main P argv).
Proof.
  intros w f Hf. rewrite main_eq. destruct (bare_flag _); [reflexivity|]. cbv zeta.
  pose proof (silent_loadMappings P (target_file P (parseArgs argv)) w) as Hl.
  destruct (loadMappings P _ w) as [w1 [data|e]]; cbn [fst] in *;
    [|unfold store in Hl; congruence].
  assert (files w1 = files w) as <- by (unfold store in Hl; congruence).
  destruct (parseArgs argv !! lit "cmd") as [[|cmd]|]; try reflexivity.
  repeat case_bool_decide.
  - apply touches_cmd_add, Hf.
  - apply touches_cmd_remove, Hf.
  - destruct (readonly_cmd_list data w1) as (-> & _). reflexivity.
  - reflexivity.
Qed.

(** X1: a command that fails leaves the store as it found it. *)
Theorem failure_leaves_store argv w w' e :
  main P argv w = (w', Throw e) ->
  run P (main P argv) w = World (files w) (draws w') (trace w ++ [Err (message P e)]) 1.
Proof.
  intros H. pose proof (careful_main argv w w' e H) as Hs.
  unfold run. rewrite H. unfold store in Hs. injection Hs as -> -> _. reflexivity.
Qed.

(** X2: no command writes a file other than the one [main] works on. *)
Theorem only_target_file_changes argv w f :
  f <> target_file P (parseArgs argv) ->
  files (run P (main P argv) w) !! f = files w !! f.
Proof.
  intros Hf. pose proof (touches_main argv w f Hf) as H.
  unfold run. destruct (main P argv w) as [w1 [[]|e]]; exact H.
Qed.

(** X3: whatever the command, a mapping file that holds something else
    than white space or a JSON array makes the run fail with the ParseError
    and nothing is written. *)
Theorem malformed_file_fails argv w raw :
  bare_flag (parseArgs argv !! lit "file") = false ->
  files w !! target_file P (parseArgs argv) = Some raw ->
  forallb is_space raw = false ->
  array_text raw = false ->
  run P (main P argv) w =
  World (files w) (draws w)
    (trace w ++ [Err (lit "无法解析 " ++ target_file P (parseArgs argv) ++ lit ": "
                      ++ match JSON_parse raw with
                         | Some _ => lit "mappings.json 必须是数组"
                         | None => SyntaxError_message P raw
                         end)]) 1.
Proof.
  intros Hflag Hfile Hblank Harr. unfold run. rewrite main_eq, Hflag. cbv zeta.
  rewrite loadMappings_eq, Hfile, Hblank. unfold array_text in Harr.
  destruct (JSON_parse raw) as [[| | | | |]|]; try discriminate; reflexivity.
Qed.

(** X4: a command other than [add], [remove] and [list] prints the usage
    text and does nothing else, provided the mapping file loads. *)
Theorem unknown_command_prints_help argv w data :
  bare_flag (parseArgs argv !! lit "file") = false ->
  loadMappings P (target_file P (parseArgs argv)) w = (w, Ok data) ->
  command_is ["add"; "remove"; "list"]%string (parseArgs argv !! lit "cmd") = false ->
  run P (main P argv) w =
  World (files w) (draws w) (trace w ++ [Log help_text]) (exitCode w).
Proof.
  intros Hflag Hload Hcmd. unfold run. rewrite main_eq, Hflag. cbv zeta. rewrite Hload.
  destruct (parseArgs argv !! lit "cmd") as [[|cmd]|]; try reflexivity.
  cbn [command_is existsb] in Hcmd.
  apply orb_false_iff in Hcmd as [H1 Hcmd]. apply orb_false_iff in Hcmd as [H2 Hcmd].
  apply orb_false_iff in Hcmd as [H3 _].
  rewrite H1, H2, H3. reflexivity.
Qed.

(** X5: only [add] and [remove] ever write: under any other command the
    files are as before and no write has taken place. *)
Theorem other_commands_never_write argv w :
  command_is ["add"; "remove"]%string (parseArgs argv !! lit "cmd") = false ->
  files (run P (main P argv) w) = files w
  /\ written (trace (run P (main P argv) w)) = written (trace w).
Proof.
  intros Hcmd.
  assert (readonly (main P argv)) as Hro.
  { intros w0. rewrite main_eq. destruct (bare_flag _); [auto|]. cbv zeta.
    destruct (silent_readonly _ (silent_loadMappings P (target_file P (parseArgs argv))) w0)
      as (H1 & H2 & H3).
    destruct (loadMappings P _ w0) as [w1 [data|e]]; cbn [fst] in *; [|auto].
    rewrite <- H1, <- H2, <- H3.
    destruct (parseArgs argv !! lit "cmd") as [[|cmd]|];
      try apply (readonly_console_log help_text w1).
    cbn [command_is existsb] in Hcmd.
    apply orb_false_iff in Hcmd as [G1 Hcmd]. apply orb_false_iff in Hcmd as [G2 _].
    rewrite G1, G2. destruct (bool_decide (cmd = lit "list")).
    - apply readonly_cmd_list.
    - apply (readonly_console_log help_text w1). }
  destruct (Hro w) as (H1 & H2 & _). unfold run.
  destruct (main P argv w) as [w1 [[]|e]]; cbn [fst files trace] in *; [auto|].
  split; [exact H1|]. unfold written in *. rewrite flat_map_app. simpl.
  rewrite app_nil_r. exact H2.
Qed.

End Main.

(** ** Options on the command line *)

Lemma render_dashes kv : exists k t, render kv = (lit "--" ++ k) :: t.
Proof. destruct kv as [k [|v]]; eexists _, _; reflexivity. Qed.

Lemma parseArgs_rest_render pairs opts :
  forallb typed_value pairs = true ->
  parseArgs_rest (flat_map render pairs) opts =
  fold_left (fun o kv => opts_assign o (fst kv) (snd kv)) pairs opts.
Proof.
  revert opts. induction pairs as [|[k v] ps IH]; intros opts Hok; [reflexivity|].
  cbn [forallb] in Hok. apply andb_true_iff in Hok as [Hv Hps].
  cbn [flat_map fold_left fst snd]. destruct v as [|v]; cbn [render fst snd app].
  - cbn [parseArgs_rest]. change (startsWith (lit "--" ++ k) (lit "--")) with true.
    cbn [negb]. change (drop 2 (lit "--" ++ k)) with k.
    destruct ps as [|p ps'].
    + reflexivity.
    + destruct (render_dashes p) as (k2 & t & Hr).
      rewrite <- (IH _ Hps). cbn [flat_map]. rewrite Hr. cbn [app].
      change (startsWith (lit "--" ++ k2) (lit "--")) with true.
      cbn [negb]. rewrite andb_false_r. reflexivity.
  - cbn [parseArgs_rest]. change (startsWith (lit "--" ++ k) (lit "--")) with true.
    cbn [negb]. change (drop 2 (lit "--" ++ k)) with k.
    unfold typed_value in Hv. cbn [snd] in Hv. rewrite Hv. apply IH, Hps.
Qed.

(** X6: options typed as [--key value] and [--key] come out of [parseArgs]
    as the successive assignments of the values to the keys, after the
    command. *)
Theorem parseArgs_render node script cmd pairs :
  cmd <> [] ->
  forallb typed_value pairs = true ->
  parseArgs (node :: script :: cmd :: flat_map render pairs) =
  fold_left (fun o kv => opts_assign o (fst kv) (snd kv)) pairs {[ lit "cmd" := OStr cmd ]}.
Proof.
  intros Hcmd Hok. unfold parseArgs. cbn [lookup list_lookup drop].
  rewrite (bool_decide_eq_false_2 _ Hcmd). apply parseArgs_rest_render, Hok.
Qed.

Lemma sound_assign opts key v :
  sound_options opts -> truthy (Some v) = true -> sound_options (opts_assign opts key v).
Proof.
  intros [Hall Hcmd] Hv. unfold opts_assign. case_bool_decide as Hk; [split; assumption|].
  split.
  - intros k u Hlook. destruct (decide (key = k)) as [<-|Hne].
    + rewrite lookup_insert_eq in Hlook. injection Hlook as <-. auto.
    + rewrite lookup_insert_ne in Hlook by exact Hne. eauto.
  - destruct (decide (key = lit "cmd")) as [->|Hne].
    + rewrite lookup_insert_eq. eauto.
    + rewrite lookup_insert_ne by exact Hne. exact Hcmd.
Qed.

Lemma sound_rest n : forall rest opts,
  (length rest <= n)%nat -> sound_options opts -> sound_options (parseArgs_rest rest opts).
Proof.
  induction n as [|n IH]; intros rest opts Hlen Hs.
  { destruct rest; [exact Hs|simpl in Hlen; lia]. }
  destruct rest as [|token rest']; [exact Hs|]. cbn [length] in Hlen. cbn [parseArgs_rest].
  destruct (negb (startsWith token (lit "--"))); [apply IH; [lia|exact Hs]|].
  destruct rest' as [|next rest'']; [apply sound_assign; [exact Hs|reflexivity]|].
  cbn [length] in Hlen.
  destruct (negb (bool_decide (next = []))) eqn:Hnext; cbn [andb].
  - destruct (negb (startsWith next (lit "--"))).
    + apply IH; [lia|]. apply sound_assign; [exact Hs|]. exact Hnext.
    + apply IH; [cbn [length]; lia|]. apply sound_assign; [exact Hs|reflexivity].
  - apply IH; [cbn [length]; lia|]. apply sound_assign; [exact Hs|reflexivity].
Qed.

(** X7: whatever the command line, the options object always has a [cmd],
    never has the key [__proto__], and every option it has is truthy: a
    falsy option is an absent one. *)
Theorem parseArgs_sound argv :
  is_Some (parseArgs argv !! lit "cmd")
  /\ parseArgs argv !! lit "__proto__" = None
  /\ forall k v, parseArgs argv !! k = Some v -> truthy (Some v) = true.
Proof.
  assert (sound_options (parseArgs argv)) as [Hall Hcmd].
  { unfold parseArgs. apply (sound_rest (length (drop 3 argv))); [lia|].
    split.
    - intros k v Hlook. apply lookup_singleton_Some in Hlook as [<- <-].
      split; [discriminate|].
      destruct (argv !! 2%nat) as [c|]; [|reflexivity].
      case_bool_decide as Hc; [reflexivity|]. cbn [truthy].
      rewrite (bool_decide_eq_false_2 _ Hc). reflexivity.
    - rewrite lookup_singleton_eq. eauto. }
  split; [exact Hcmd|]. split.
  - destruct (parseArgs argv !! lit "__proto__") as [v|] eqn:E; [|reflexivity].
    destruct (Hall _ _ E) as [Hne _]. contradiction.
  - intros k v Hlook. apply (Hall _ _ Hlook).
Qed.

(** ** Listing *)

Section Listing.
Variable P : platform.

Lemma assoc_get_existsb props k :
  existsb (fun kv : str * value => bool_decide (fst kv = k)) props
  = match assoc_get props k with Some _ => true | None => false end.
Proof.
  induction props as [|[k' v] r IH]; [reflexivity|]. cbn [existsb assoc_get fst].
  destruct (bool_decide (k' = k)); [reflexivity|exact IH].
Qed.

Lemma ToString_text v :
  ToString P v = if printable v then Some (text_of P v) else None.
Proof.
  induction v as [|b|l|s|items HF|props _] using value_induction;
    try reflexivity.
  - destruct b; reflexivity.
  - cbn [ToString printable text_of].
    match goal with
    | |- match ?e with Some _ => _ | None => _ end = _ =>
        assert (e = if forallb printable items
                    then Some (map (fun x => match x with VNull => [] | _ => text_of P x end)
                                 items)
                    else None) as ->
    end.
    { induction HF as [|x r Hx HF IH]; [reflexivity|].
      assert (match x with VNull => Some [] | _ => ToString P x end
              = if printable x
                then Some match x with VNull => [] | _ => text_of P x end
                else None) as Hx'
        by (revert Hx; destruct x; intros Hx; try exact Hx; reflexivity).
      cbn [forallb map]. rewrite Hx', IH.
      destruct (printable x); [|reflexivity].
      destruct (forallb printable r); reflexivity. }
    destruct (forallb printable items); reflexivity.
  - cbn [ToString printable]. rewrite assoc_get_existsb.
    destruct (assoc_get props (lit "toString")); reflexivity.
Qed.

Lemma list_row_listable item w :
  listable item = true -> url_printable item = true ->
  list_row P item w = (w, Ok (row_of P item)).
Proof.
  destruct item as [| | | | |props]; try discriminate. cbn [listable url_printable row_of].
  unfold list_row, bind, get_prop, ret.
  destruct (assoc_get props (lit "code")) as [[| | |c| |]|]; try discriminate.
  intros _. destruct (assoc_get props (lit "url")) as [u|]; [|reflexivity].
  intros Hu. rewrite ToString_text, Hu. reflexivity.
Qed.

Lemma list_row_unlistable item w :
  is_object item = true -> listable item = false ->
  exists f, list_row P item w = (w, Throw (TypeError f)).
Proof.
  destruct item as [| | | | |props]; try discriminate. intros _. cbn [listable].
  unfold list_row, bind, get_prop, ret.
  destruct (assoc_get props (lit "code")) as [[| | |c| |]|]; try discriminate;
    intros _; eexists; reflexivity.
Qed.

Lemma list_row_unprintable item w :
  is_object item = true -> url_printable item = false ->
  exists f, list_row P item w = (w, Throw (TypeError f)).
Proof.
  intros Hobj Hu. destruct (listable item) eqn:Hl; [|apply list_row_unlistable; assumption].
  destruct item as [| | | | |props]; try discriminate.
  cbn [listable url_printable] in *. unfold list_row, bind, get_prop, ret.
  destruct (assoc_get props (lit "code")) as [[| | |c| |]|]; try discriminate.
  destruct (assoc_get props (lit "url")) as [u|]; [|discriminate].
  rewrite ToString_text, Hu. eexists. reflexivity.
Qed.

Lemma list_row_outcome item w :
  is_object item = true ->
  (exists row, list_row P item w = (w, Ok row))
  \/ (exists f, list_row P item w = (w, Throw (TypeError f))).
Proof.
  intros Hobj. destruct (listable item) eqn:Hl;
    [|right; apply list_row_unlistable; assumption].
  destruct (url_printable item) eqn:Hu;
    [|right; apply list_row_unprintable; assumption].
  left. eexists. apply list_row_listable; assumption.
Qed.

Lemma mapM_rows data w :
  forallb listable data = true -> forallb url_printable data = true ->
  mapM (list_row P) data w = (w, Ok (map (row_of P) data)).
Proof.
  induction data as [|x r IH]; intros H Hp; [reflexivity|].
  cbn [forallb] in H, Hp. apply andb_true_iff in H as [Hx Hr].
  apply andb_true_iff in Hp as [Hpx Hpr]. cbn [mapM map].
  rewrite (bind_ok _ _ _ _ _ (list_row_listable x w Hx Hpx)).
  rewrite (bind_ok _ _ _ _ _ (IH Hr Hpr)). reflexivity.
Qed.

Lemma mapM_rows_fail (p : value -> bool) data w :
  (forall item, is_object item = true -> p item = false ->
                exists f, list_row P item w = (w, Throw (TypeError f))) ->
  record_set data = true -> forallb p data = false ->
  exists f, mapM (list_row P) data w = (w, Throw (TypeError f)).
Proof.
  intros Hp. induction data as [|x r IH]; intros Hrec H; [discriminate|].
  apply record_set_cons in Hrec as [Hx Hr]. cbn [forallb] in H. cbn [mapM].
  destruct (list_row_outcome x w Hx) as [[row Hrow]|[f Hf]].
  - destruct (p x) eqn:Hl.
    + destruct (IH Hr H) as [f Hf]. exists f.
      rewrite (bind_ok _ _ _ _ _ Hrow), (bind_throw _ _ _ _ _ Hf). reflexivity.
    + destruct (Hp x Hx Hl) as [f Hf]. congruence.
  - exists f. rewrite (bind_throw _ _ _ _ _ Hf). reflexivity.
Qed.

(** X8: when every record has a string for a code and a URL that can be
    printed, [list] prints one row per record, in the stored order, joined
    by line breaks: the code padded with spaces to 12 columns, a space, the
    URL; for an empty record set it prints the notice instead. *)
Theorem list_prints_rows data w :
  forallb listable data = true ->
  forallb url_printable data = true ->
  run P (cmd_list P data) w =
  World (files w) (draws w)
    (trace w ++ [Log match data with
                     | [] => lit "暂无短链"
                     | _ :: _ => join nl (map (row_of P) data)
                     end])
    (exitCode w).
Proof.
  intros H Hp. unfold run, cmd_list. destruct data as [|x r]; [reflexivity|].
  rewrite bool_decide_eq_false_2 by discriminate.
  rewrite (bind_ok _ _ _ _ _ (mapM_rows _ w H Hp)). reflexivity.
Qed.

Lemma cmd_list_throws (p : value -> bool) data w :
  (forall item, is_object item = true -> p item = false ->
                exists f, list_row P item w = (w, Throw (TypeError f))) ->
  record_set data = true -> forallb p data = false ->
  exists f, cmd_list P data w = (w, Throw (TypeError f)).
Proof.
  intros Hp Hrec H. destruct (mapM_rows_fail p data w Hp Hrec H) as [f Hf]. exists f.
  unfold cmd_list. destruct data as [|x r]; [discriminate|].
  rewrite bool_decide_eq_false_2 by discriminate.
  rewrite (bind_throw _ _ _ _ _ Hf). reflexivity.
Qed.

Lemma cmd_list_fail data w :
  record_set data = true -> forallb listable data = false ->
  exists f, cmd_list P data w = (w, Throw (TypeError f)).
Proof.
  apply (cmd_list_throws listable). intros item. apply list_row_unlistable.
Qed.

(** X9: if some record has no string for a code, [list] prints nothing and
    fails with a [TypeError]. *)
Theorem list_fails_without_string_code data w :
  record_set data = true ->
  forallb listable data = false ->
  exists f,
    cmd_list P data w = (w, Throw (TypeError f))
    /\ run P (cmd_list P data) w =
       World (files w) (draws w) (trace w ++ [Err (fault_message P f)]) 1.
Proof.
  intros Hrec H. destruct (cmd_list_fail data w Hrec H) as [f Hc]. exists f.
  split; [exact Hc|]. unfold run. rewrite Hc. reflexivity.
Qed.

(** X23: if the URL of some record cannot be printed (it is, or holds in an
    array, an object with a property [toString] of its own), [list] prints
    nothing and fails with a [TypeError]. *)
Theorem list_fails_on_unprintable_url data w :
  record_set data = true ->
  forallb url_printable data = false ->
  exists f,
    cmd_list P data w = (w, Throw (TypeError f))
    /\ run P (cmd_list P data) w =
       World (files w) (draws w) (trace w ++ [Err (fault_message P f)]) 1.
Proof.
  intros Hrec H.
  destruct (cmd_list_throws url_printable data w) as [f Hc];
    [intros item; apply list_row_unprintable|exact Hrec|exact H|].
  exists f. split; [exact Hc|]. unfold run. rewrite Hc. reflexivity.
Qed.
End Listing.

(** ** The locale object *)

Lemma assoc_get_set props k v k' :
  assoc_get (assoc_set props k v) k' =
  if bool_decide (k = k') then Some v else assoc_get props k'.
Proof.
  induction props as [|[k0 v0] r IH]; cbn [assoc_set assoc_get].
  - reflexivity.
  - destruct (bool_decide (k0 = k)) eqn:E0; cbn [assoc_get].
    + apply bool_decide_eq_true in E0. subst k0.
      destruct (bool_decide (k = k')); reflexivity.
    + rewrite IH. apply bool_decide_eq_false in E0.
      destruct (bool_decide (k0 = k')) eqn:E1; [|reflexivity].
      apply bool_decide_eq_true in E1. subst k0.
      rewrite bool_decide_eq_false_2 by congruence. reflexivity.
Qed.

Lemma assoc_set_keys props k v :
  map fst (assoc_set props k v) =
  if bool_decide (k ∈ map fst props) then map fst props else map fst props ++ [k].
Proof.
  induction props as [|[k0 v0] r IH]; cbn [assoc_set map fst].
  - rewrite bool_decide_eq_false_2 by (intros H; inversion H). reflexivity.
  - destruct (bool_decide (k0 = k)) eqn:E0; cbn [map fst].
    + apply bool_decide_eq_true in E0. subst k0.
      rewrite bool_decide_eq_true_2 by left. reflexivity.
    + apply bool_decide_eq_false in E0. rewrite IH.
      destruct (bool_decide (k ∈ map fst r)) eqn:E1.
      * apply bool_decide_eq_true in E1.
        rewrite bool_decide_eq_true_2 by (right; exact E1). reflexivity.
      * apply bool_decide_eq_false in E1.
        rewrite bool_decide_eq_false_2; [reflexivity|].
        intros H. apply elem_of_cons in H as [H|H]; [congruence|contradiction].
Qed.

Lemma assoc_set_NoDup props k v :
  NoDup (map fst props) -> NoDup (map fst (assoc_set props k v)).
Proof.
  intros H. rewrite assoc_set_keys. case_bool_decide as Hk; [exact H|].
  apply NoDup_app. split; [exact H|]. split; [|apply NoDup_singleton].
  intros x Hx Hin. apply list_elem_of_singleton in Hin. subst. contradiction.
Qed.

Lemma assoc_get_None props k : k ∉ map fst props -> assoc_get props k = None.
Proof.
  induction props as [|[k0 v0] r IH]; cbn [assoc_get map fst]; [reflexivity|].
  intros H. apply not_elem_of_cons in H as [Hne Hr].
  rewrite bool_decide_eq_false_2 by congruence. apply IH, Hr.
Qed.

Lemma locale_object_snoc entries e :
  locale_object (entries ++ [e]) = obj_assign (locale_object entries) (fst e) (VStr (snd e)).
Proof. unfold locale_object. rewrite fold_left_app. reflexivity. Qed.

Lemma locale_object_spec entries :
  NoDup (map fst (locale_object entries))
  /\ forall k, assoc_get (locale_object entries) k =
               if bool_decide (k = lit "__proto__") then None else last_entry k entries.
Proof.
  induction entries as [|e es [IHn IHl]] using rev_ind.
  - split; [constructor|]. intros k. destruct (bool_decide _); reflexivity.
  - rewrite locale_object_snoc. unfold obj_assign.
    destruct (bool_decide (fst e = lit "__proto__")) eqn:Ee.
    + apply bool_decide_eq_true in Ee. split; [exact IHn|].
      intros k. rewrite IHl. destruct (bool_decide (k = lit "__proto__")) eqn:Ek; [reflexivity|].
      apply bool_decide_eq_false in Ek.
      unfold last_entry. rewrite rev_app_distr. cbn [rev app List.find].
      rewrite bool_decide_eq_false_2 by congruence. reflexivity.
    + apply bool_decide_eq_false in Ee. split; [apply assoc_set_NoDup, IHn|].
      intros k. rewrite assoc_get_set, IHl.
      unfold last_entry. rewrite rev_app_distr. cbn [rev app List.find].
      destruct (bool_decide (fst e = k)) eqn:Ek.
      * apply bool_decide_eq_true in Ek. subst k.
        rewrite bool_decide_eq_false_2 by exact Ee. reflexivity.
      * reflexivity.
Qed.

(** X10: in the object [parseLocales] returns no tag occurs twice, a tag is
    mapped to the URL of the last well-formed pair that names it, and the
    tag [__proto__] is never a property. *)
Theorem parseLocales_last_wins input w :
  exists props,
    parseLocales (Some (OStr input)) w = (w, Ok (VObj props))
    /\ NoDup (map fst props)
    /\ forall k, assoc_get props k =
                 if bool_decide (k = lit "__proto__") then None
                 else last_entry k (locale_entries input).
Proof.
  exists (locale_object (locale_entries input)).
  split; [apply parseLocales_object|apply locale_object_spec].
Qed.

(** ** Random codes *)

Section Codes.
Variable P : platform.

Lemma base62_nonempty (safe : bool) : (if safe then base62Safe else base62) <> ([] : str).
Proof. destruct safe; discriminate. Qed.

Lemma base62Safe_unambiguous :
  Forall (fun c => c ∉ lit "0O1lI") base62Safe.
Proof.
  apply (bool_decide_eq_true_1 (Forall (fun c => c ∉ lit "0O1lI") base62Safe)).
  vm_compute. reflexivity.
Qed.

(** X11: [randCode] calls the random source [len] times and returns [len]
    characters of the alphabet it was asked for; the safe alphabet has none
    of the look-alike characters 0, O, 1, l and I. *)
Theorem randCode_shape len safe w :
  exists code,
    randCode P len safe w = (advance len w, Ok code)
    /\ length code = len
    /\ Forall (fun c => c ∈ (if safe then base62Safe else base62)) code
    /\ (safe = true -> Forall (fun c => c ∉ lit "0O1lI") code).
Proof.
  eexists. split; [unfold randCode; apply randCode_from_pick|].
  split; [rewrite pick_length; [reflexivity|apply base62_nonempty]|].
  split.
  - apply pick_chars; [apply base62_nonempty| |constructor].
    apply Forall_forall. auto.
  - intros ->. apply pick_chars; [discriminate|exact base62Safe_unambiguous|constructor].
Qed.
End Codes.

(** ** [assets/utils.js] *)

Lemma escapeHtml_cons c s : escapeHtml (c :: s) = html_piece c ++ escapeHtml s.
Proof. reflexivity. Qed.

Ltac entity_cases c :=
  unfold html_piece, html_entity;
  destruct (N.eqb_spec c 38) as [->|?];
  [|destruct (N.eqb_spec c 60) as [->|?];
    [|destruct (N.eqb_spec c 62) as [->|?];
      [|destruct (N.eqb_spec c 34) as [->|?];
        [|destruct (N.eqb_spec c 39) as [->|?]]]]];
  repeat match goal with
    | |- context [lit ?s] => let v := eval vm_compute in (lit s) in change (lit s) with v
    end.

(** X12: the text [escapeHtml] returns holds none of the characters
    [<], [>], double quote and apostrophe. *)
Theorem escapeHtml_safe s :
  Forall (fun c => c <> 60 /\ c <> 62 /\ c <> 34 /\ c <> 39) (escapeHtml s).
Proof.
  induction s as [|c r IH]; [constructor|].
  rewrite escapeHtml_cons. apply Forall_app. split; [|exact IH].
  entity_cases c; repeat constructor; (discriminate || assumption).
Qed.

Lemma html_piece_inj c d x y :
  html_piece c ++ x = html_piece d ++ y -> c = d /\ x = y.
Proof.
  entity_cases c; entity_cases d; cbn [app]; intros H;
    try discriminate; try (injection H; intros; subst; auto; congruence).
Qed.

Lemma html_piece_nonempty c x : html_piece c ++ x <> [].
Proof. entity_cases c; discriminate. Qed.

(** X13: [escapeHtml] loses nothing: two strings with the same escaped text
    are the same string. *)
Theorem escapeHtml_injective s t : escapeHtml s = escapeHtml t -> s = t.
Proof.
  revert t. induction s as [|c r IH]; intros [|d t] H.
  - reflexivity.
  - rewrite escapeHtml_cons in H. symmetry in H. apply html_piece_nonempty in H. contradiction.
  - rewrite escapeHtml_cons in H. apply html_piece_nonempty in H. contradiction.
  - rewrite !escapeHtml_cons in H. apply html_piece_inj in H as [-> H].
    f_equal. apply IH, H.
Qed.

(** ** The digest in hexadecimal *)

Lemma two_digits_all b : two_digits b = true.
Proof. destruct b; vm_compute; reflexivity. Qed.

Lemma join_empty_cons (p : str) ps : join [] (p :: ps) = p ++ join [] ps.
Proof. destruct ps; [symmetry; apply app_nil_r|reflexivity]. Qed.

(** X14: [sha256Hex] renders every byte of the digest as two lower-case
    hexadecimal digits, so the text is twice as long as the digest and
    reads back as the digest. *)
Theorem sha256Hex_digits (encode : str -> list byte) (digest : list byte -> list byte) s :
  length (sha256Hex encode digest s) = (2 * length (digest (encode s)))%nat
  /\ forallb lower_hex (sha256Hex encode digest s) = true
  /\ unhex (sha256Hex encode digest s) = Some (digest (encode s)).
Proof.
  unfold sha256Hex. induction (digest (encode s)) as [|b r (IH1 & IH2 & IH3)].
  - repeat split.
  - cbn [map]. rewrite join_empty_cons.
    pose proof (two_digits_all b) as Hb. unfold two_digits in Hb.
    destruct (padStart 2 (ch "0") (toString16 b)) as [|a [|c [|? ?]]]; try discriminate.
    apply andb_true_iff in Hb as [Hb Hv]. apply andb_true_iff in Hb as [Ha Hc].
    destruct (hex_value a) as [x|] eqn:Hx; [|discriminate].
    destruct (hex_value c) as [y|] eqn:Hy; [|discriminate].
    destruct (Byte.of_N (x * 16 + y)) as [b'|] eqn:Hof; [|discriminate].
    apply Byte.byte_dec_bl in Hv. subst b'.
    cbn [app length forallb unhex]. rewrite IH1, IH2, IH3, Ha, Hc, Hx, Hy, Hof.
    repeat split. cbn [length]. lia.
Qed.

(** ** Adding, loading, removing *)

Lemma plain_value_of o : plain (value_of o) = true.
Proof. destruct o; reflexivity. Qed.

Lemma plain_or_null o : plain (or_null o) = true.
Proof. destruct o as [[|s]|]; cbn [or_null]; [reflexivity| |reflexivity].
  destruct (truthy _); reflexivity. Qed.

Lemma locale_object_strings entries :
  forallb (fun kv => plain (snd kv)) (locale_object entries) = true.
Proof.
  induction entries as [|e es IH] using rev_ind; [reflexivity|].
  rewrite locale_object_snoc. unfold obj_assign. destruct (bool_decide _); [exact IH|].
  revert IH. generalize (locale_object es) as props.
  induction props as [|[k v] r IHr]; cbn [assoc_set forallb snd]; [reflexivity|].
  intros H. apply andb_true_iff in H as [Hv Hr].
  destruct (bool_decide (k = fst e)); cbn [forallb snd plain].
  - exact Hr.
  - rewrite Hv. apply IHr, Hr.
Qed.

Lemma forallb_insert {A} (p : A -> bool) (l : list A) i x :
  forallb p l = true -> p x = true -> forallb p (<[i := x]> l) = true.
Proof.
  revert i. induction l as [|y r IH]; intros i Hl Hx; [reflexivity|].
  cbn [forallb] in Hl. apply andb_true_iff in Hl as [Hy Hr].
  destruct i as [|i].
  - change (<[O:=x]> (y :: r)) with (x :: r). cbn [forallb]. rewrite Hx. exact Hr.
  - change (<[S i:=x]> (y :: r)) with (y :: <[i:=x]> r). cbn [forallb].
    rewrite Hy. apply IH; assumption.
Qed.

Lemma forallb_placed (p : value -> bool) replace code mapping data :
  forallb p data = true -> p mapping = true ->
  forallb p (placed replace code mapping data) = true.
Proof.
  intros Hd Hm. unfold placed.
  assert (forallb p (data ++ [mapping]) = true) as Happ
    by (rewrite forallb_app, Hd; cbn [forallb]; rewrite Hm; reflexivity).
  destruct replace; [|exact Happ].
  destruct (index_of (coded code) data); [apply forallb_insert; assumption|exact Happ].
Qed.

Section Compose.
Variable P : platform.

Lemma plain_hash pwd w w1 ph : hashPassword P pwd w = (w1, Ok ph) -> plain ph = true.
Proof.
  unfold hashPassword. destruct (truthy pwd); cbn [negb].
  - destruct pwd as [[|s]|]; intros [= _ <-] || discriminate; reflexivity.
  - intros [= _ <-]. reflexivity.
Qed.

Lemma plain_object props :
  plain (VObj props) =
  bool_decide (NoDup (map fst props)) && forallb (fun kv => plain (snd kv)) props.
Proof. reflexivity. Qed.

Lemma plain_locale input w w1 loc : parseLocales input w = (w1, Ok loc) -> plain loc = true.
Proof.
  destruct input as [[|s]|]; try (intros [= _ <-]; reflexivity); try discriminate.
  rewrite parseLocales_object. intros [= _ <-].
  rewrite plain_object, locale_object_strings, andb_true_r.
  apply bool_decide_eq_true_2, locale_object_spec.
Qed.

Lemma plain_mapping opts code url ph loc :
  plain ph = true -> plain loc = true -> plain (mapping_of P opts code url ph loc) = true.
Proof.
  intros Hph Hloc. unfold mapping_of, new_mapping. cbn [plain map fst snd forallb].
  rewrite !plain_value_of, !plain_or_null, Hph, Hloc.
  vm_compute. reflexivity.
Qed.

Lemma code_of_mapping opts code url ph loc :
  code_of (mapping_of P opts code url ph loc) = Some (value_of code).
Proof. reflexivity. Qed.

Lemma load_saved file data w :
  forallb plain data = true ->
  files w !! file = Some (saved P data) ->
  loadMappings P file w = (w, Ok data).
Proof.
  intros Hp Hf. rewrite loadMappings_eq, Hf, saved_not_blank.
  unfold saved. rewrite JSON_parse_stringify; [reflexivity|exact Hp].
Qed.

(** X15: for a record set that holds no number and in which no object
    lists a property twice, what [add] saved is what the next run loads:
    the record set with the record that the options describe (the code
    given or generated, the URL, the time of the run, the expiry, the
    digest of the password, the device targets, the locale object) in the
    place of the first record with its code under [--replace], at the end
    otherwise. *)
Theorem add_then_load opts file data w w' :
  record_set data = true ->
  forallb plain data = true ->
  cmd_add P opts file data w = (w', Ok tt) ->
  exists url code,
    opts !! lit "url" = Some url
    /\ code_from P opts w code
    /\ loadMappings P file w' =
       (w', Ok (placed (truthy (opts !! lit "replace")) code
                  (record_for P opts code url) data)).
Proof.
  intros Hr Hp H.
  destruct (cmd_add_ok P _ _ _ _ _ Hr H)
    as (url & code & w1 & ph & loc & Hurl & Hu & Hv & Hs & Hh & Hl & Hw).
  exists url, code. split; [exact Hurl|].
  split; [exact (settled_code_from P _ _ _ _ _ Hs)|]. cbv zeta in Hw.
  pose proof (mapping_of_record P opts code url _ _ _ ph loc Hh Hl) as Hm.
  rewrite Hm in Hw.
  apply load_saved.
  - apply forallb_placed; [exact Hp|]. rewrite <- Hm.
    apply plain_mapping; [eapply plain_hash, Hh|eapply plain_locale, Hl].
  - rewrite Hw. cbn [files]. apply lookup_insert_eq.
Qed.

Lemma cmd_remove_eq opts file data w code :
  record_set data = true ->
  opts !! lit "code" = Some code -> truthy (Some code) = true ->
  cmd_remove P opts file data w =
  let kept := List.filter (fun item => negb (coded code item)) data in
  if existsb (coded code) data
  then (World (<[file := saved P kept]> (files w)) (draws w)
          (trace w ++ [Written file (saved P kept); Log (lit "已删除 " ++ to_str code)])
          (exitCode w), Ok tt)
  else (World (files w) (draws w) (trace w ++ [Err (NotFound code)]) (exitCode w), Ok tt).
Proof.
  intros Hr Hcode Hc. unfold cmd_remove. rewrite Hcode, Hc. cbn [negb].
  erewrite bind_ok; [|apply filterM_has_code, Hr]. cbv zeta.
  destruct (existsb (coded code) data) eqn:He.
  - pose proof (filter_shorter _ _ He) as Hlt.
    rewrite bool_decide_eq_false_2 by lia. apply save_and_log.
  - rewrite (filter_all _ _ He), bool_decide_eq_true_2 by reflexivity. reflexivity.
Qed.

Lemma record_set_app data item :
  record_set data = true -> is_object item = true -> record_set (data ++ [item]) = true.
Proof. intros Hd Hi. unfold record_set in *. rewrite forallb_app, Hd. cbn [forallb]. rewrite Hi. reflexivity. Qed.

Lemma filter_app_last (p : value -> bool) data item :
  existsb p data = false -> p item = true ->
  List.filter (fun x => negb (p x)) (data ++ [item]) = data.
Proof.
  intros Hd Hi. rewrite List.filter_app, (filter_all _ _ Hd). cbn [List.filter].
  rewrite Hi. cbn [negb]. apply app_nil_r.
Qed.

(** X16: for a record set that holds no number and in which no object
    lists a property twice: after an [add] that succeeded under a code no
    record carried, a [remove] of that code on the reloaded file saves
    exactly the records there were before the [add], and reports the
    deletion. *)
Theorem add_then_remove_restores add_options remove_options file data w w1 code :
  record_set data = true ->
  forallb plain data = true ->
  add_options !! lit "code" = Some code -> truthy (Some code) = true ->
  existsb (coded code) data = false ->
  cmd_add P add_options file data w = (w1, Ok tt) ->
  remove_options !! lit "code" = Some code ->
  exists data1,
    loadMappings P file w1 = (w1, Ok data1)
    /\ cmd_remove P remove_options file data1 w1 =
       (saveMappings P file data ;; console_log (lit "已删除 " ++ to_str code)) w1.
Proof.
  intros Hr Hp Hcode Hc Hfresh Hadd Hrem.
  destruct (cmd_add_ok P _ _ _ _ _ Hr Hadd)
    as (u & c & w2 & ph2 & loc2 & Hu1 & _ & _ & Hs & Hh & Hl & Hw).
  destruct Hs as [(Hc1 & _)|(Hno & _)];
    [|rewrite Hcode, Hc in Hno; discriminate].
  rewrite Hcode in Hc1. injection Hc1 as <-.
  cbv zeta in Hw.
  set (mapping := mapping_of P add_options code u ph2 loc2) in *.
  assert (placed (truthy (add_options !! lit "replace")) code mapping data = data ++ [mapping])
    as Hplaced.
  { unfold placed. destruct (truthy (add_options !! lit "replace")); [|reflexivity].
    apply index_of_None in Hfresh. rewrite Hfresh. reflexivity. }
  rewrite Hplaced in Hw.
  exists (data ++ [mapping]). split.
  - apply load_saved.
    + rewrite forallb_app, Hp. cbn [forallb]. rewrite andb_true_r.
      apply plain_mapping; [eapply plain_hash, Hh|eapply plain_locale, Hl].
    + rewrite Hw. cbn [files]. apply lookup_insert_eq.
  - rewrite (cmd_remove_eq remove_options file (data ++ [mapping]) w1 code);
      [|apply record_set_app; [exact Hr|reflexivity]|exact Hrem|exact Hc].
    cbv zeta.
    assert (coded code mapping = true) as Hm by (apply strict_equals_iff; reflexivity).
    rewrite existsb_app. cbn [existsb]. rewrite Hfresh, Hm. cbn [orb].
    rewrite (filter_app_last _ _ _ Hfresh Hm), save_and_log. reflexivity.
Qed.
End Compose.

Section Edges.
Variable P : platform.

Lemma forallb_filter {A} (p q : A -> bool) l :
  forallb p l = true -> forallb p (List.filter q l) = true.
Proof.
  induction l as [|x r IH]; [reflexivity|]. cbn [forallb List.filter].
  intros H. apply andb_true_iff in H as [Hx Hr].
  destruct (q x); cbn [forallb]; [rewrite Hx|]; apply IH, Hr.
Qed.

(** X17: for a record set that holds no number and in which no object
    lists a property twice, removing a code twice: after a [remove] that
    found the code and succeeded, the next run loads the records the
    first one kept, reports the code as missing and writes nothing. *)
Theorem remove_twice opts file data w w1 code :
  record_set data = true ->
  forallb plain data = true ->
  opts !! lit "code" = Some code -> truthy (Some code) = true ->
  existsb (coded code) data = true ->
  cmd_remove P opts file data w = (w1, Ok tt) ->
  let kept := List.filter (fun item => negb (coded code item)) data in
  loadMappings P file w1 = (w1, Ok kept)
  /\ run P (cmd_remove P opts file kept) w1 =
     World (files w1) (draws w1) (trace w1 ++ [Err (lit "未找到短码 " ++ to_str code)])
       (exitCode w1).
Proof.
  intros Hr Hp Hcode Hc He Hrun kept.
  assert (w1 = World (<[file := saved P kept]> (files w)) (draws w)
                 (trace w ++ [Written file (saved P kept); Log (lit "已删除 " ++ to_str code)])
                 (exitCode w)) as Hw1.
  { rewrite (cmd_remove_eq P opts file data w code Hr Hcode Hc) in Hrun.
    cbv zeta in Hrun. rewrite He in Hrun. injection Hrun as <-. reflexivity. }
  assert (record_set kept = true) as Hrk by (apply forallb_filter, Hr).
  split.
  - apply load_saved; [apply forallb_filter, Hp|].
    rewrite Hw1. cbn [files]. apply lookup_insert_eq.
  - unfold run. rewrite (cmd_remove_eq P opts file kept w1 code Hrk Hcode Hc).
    cbv zeta. unfold kept at 1. rewrite filter_none_left. reflexivity.
Qed.

Lemma has_code_not_null code item w :
  item <> VNull -> exists b, has_code code item w = (w, Ok b).
Proof.
  intros Hn. unfold has_code, bind, get_prop.
  destruct item; try contradiction; eexists; reflexivity.
Qed.

Lemma get_prop_not_null name item w :
  item <> VNull -> exists v, get_prop name item w = (w, Ok v).
Proof. intros Hn. destruct item; try contradiction; eexists; reflexivity. Qed.

(** X18: a [null] among the elements of the array makes [remove] and the
    code generation fail with the [TypeError] for reading [code] of
    [null], before anything is written. *)
Theorem null_element_breaks opts file data w code :
  VNull ∈ data ->
  opts !! lit "code" = Some code -> truthy (Some code) = true ->
  cmd_remove P opts file data w = (w, Throw (TypeError (NullProperty (lit "code"))))
  /\ getRandomCode P data w = (w, Throw (TypeError (NullProperty (lit "code")))).
Proof.
  intros Hin Hcode Hc. split.
  - unfold cmd_remove. rewrite Hcode, Hc. cbn [negb].
    erewrite bind_throw; [reflexivity|].
    clear Hcode Hc. induction data as [|x r IH]; [inversion Hin|].
    cbn [filterM].
    assert (x = VNull \/ x <> VNull) as [->|Hx]
      by (destruct x; (left; reflexivity) || (right; discriminate)); [reflexivity|].
    apply elem_of_cons in Hin as [Heq|Hin]; [congruence|].
    destruct (has_code_not_null code x w Hx) as [b Hb].
    erewrite bind_ok; [|erewrite bind_ok; [reflexivity|exact Hb]].
    erewrite bind_throw; [reflexivity|apply IH, Hin].
  - unfold getRandomCode. erewrite bind_throw; [reflexivity|].
    induction data as [|x r IH]; [inversion Hin|].
    cbn [mapM].
    assert (x = VNull \/ x <> VNull) as [->|Hx]
      by (destruct x; (left; reflexivity) || (right; discriminate)); [reflexivity|].
    apply elem_of_cons in Hin as [Heq|Hin]; [congruence|].
    destruct (get_prop_not_null (lit "code") x w Hx) as [v Hv].
    erewrite bind_ok; [|exact Hv].
    erewrite bind_throw; [reflexivity|apply IH, Hin].
Qed.

Lemma elem_of_placed replace code mapping data : mapping ∈ placed replace code mapping data.
Proof.
  unfold placed.
  assert (mapping ∈ data ++ [mapping]) as Happ by (apply elem_of_app; right; left).
  destruct replace; [|exact Happ].
  destruct (index_of (coded code) data) as [i|] eqn:Hi; [|exact Happ].
  destruct (index_of_Some _ _ _ Hi) as (b & old & a & -> & <- & _).
  rewrite insert_middle. apply elem_of_app. right. left.
Qed.

(** X19: [--code] given without a value is taken as the boolean [true]: the
    record [add] saves has [true] for a code, and [list] on the saved
    record set fails with a [TypeError]. *)
Theorem bare_code_flag opts file data w w' :
  record_set data = true ->
  opts !! lit "code" = Some OTrue ->
  cmd_add P opts file data w = (w', Ok tt) ->
  exists mapping data',
    files w' !! file = Some (saved P data')
    /\ mapping ∈ data'
    /\ code_of mapping = Some (VBool true)
    /\ exists f, cmd_list P data' w' = (w', Throw (TypeError f)).
Proof.
  intros Hr Hcode H.
  destruct (cmd_add_ok P _ _ _ _ _ Hr H)
    as (url & code & w1 & ph & loc & Hurl & Hu & Hv & Hs & Hh & Hl & Hw).
  destruct Hs as [(Hc1 & _)|(Hno & _)]; [|rewrite Hcode in Hno; discriminate].
  rewrite Hcode in Hc1. injection Hc1 as <-. cbv zeta in Hw.
  set (mapping := mapping_of P opts OTrue url ph loc) in *.
  set (data' := placed (truthy (opts !! lit "replace")) OTrue mapping data) in *.
  exists mapping, data'. split; [rewrite Hw; cbn [files]; apply lookup_insert_eq|].
  split; [apply elem_of_placed|]. split; [reflexivity|].
  apply cmd_list_fail.
  - apply forallb_placed; [exact Hr|reflexivity].
  - destruct (forallb listable data') eqn:E; [|reflexivity].
    pose proof (proj1 (forallb_forall _ _) E mapping) as Hm.
    specialize (Hm (proj1 (list_elem_of_In _ _) (elem_of_placed _ _ _ _))). discriminate.
Qed.

Lemma existsb_find {A} (p : A -> bool) l :
  existsb p l = true -> exists x, List.find p l = Some x.
Proof.
  induction l as [|y r IH]; [discriminate|]. cbn [existsb List.find].
  destruct (p y); [eauto|]. exact IH.
Qed.

(** In a store that takes every write, [add] goes through exactly when
    its checks do. *)
Lemma cmd_add_accepts opts file data w :
  record_set data = true ->
  (exists w', cmd_add P opts file data w = (w', Ok tt)) <-> add_accepts P opts data w = true.
Proof.
  intros Hr. unfold add_accepts. split.
  - intros [w' H].
    destruct (cmd_add_ok P _ _ _ _ _ Hr H)
      as (url & code & w1 & ph & loc & Hurl & Hu & Hv & Hs & Hh & Hl & _).
    rewrite Hurl, Hu, Hv. cbn [andb].
    assert (bare_flag (opts !! lit "password") = false) as ->.
    { destruct (opts !! lit "password") as [[|s]|]; try reflexivity. discriminate. }
    assert (bare_flag (opts !! lit "locale") = false) as ->.
    { destruct (opts !! lit "locale") as [[|s]|]; try reflexivity. discriminate. }
    cbn [negb]. rewrite !andb_true_r.
    destruct Hs as [(Hcode & Hc & Hp & Hf & _)|(Hno & i & Hi & -> & Hf & _)].
    + rewrite Hcode, Hc. cbn [or_empty]. rewrite Hc, Hp. cbn [andb].
      destruct (truthy (opts !! lit "replace")); [reflexivity|].
      rewrite (Hf eq_refl). reflexivity.
    + rewrite Hno. apply existsb_exists. exists i. split.
      * apply in_seq. lia.
      * rewrite has_codes, Hf. reflexivity.
  - destruct (opts !! lit "url") as [url|] eqn:Hurl; [|discriminate].
    intros H. apply andb_true_iff in H as [H Hloc]. apply andb_true_iff in H as [H Hpwd].
    apply andb_true_iff in H as [H Hcode]. apply andb_true_iff in H as [Hu Hv].
    unfold cmd_add. rewrite Hurl, Hu, Hv. cbn [negb]. rewrite or_empty_truthy.
    assert (exists code w1,
      (if truthy (opts !! lit "code")
       then
         if negb (code_pattern (to_str (or_empty (opts !! lit "code"))))
         then throw InvalidCode
         else
           (if negb (truthy (opts !! lit "replace"))
            then ensureUnique (or_empty (opts !! lit "code")) data
            else ret tt) ;; ret (or_empty (opts !! lit "code"))
       else do generated <- getRandomCode P data; ret (OStr generated)) w = (w1, Ok code))
      as (code & w1 & Hstep).
    { destruct (truthy (opts !! lit "code")).
      - apply andb_true_iff in Hcode as [Hp Hfree]. rewrite Hp. cbn [negb].
        exists (or_empty (opts !! lit "code")), w.
        destruct (truthy (opts !! lit "replace")); cbn [negb orb] in *; [reflexivity|].
        apply negb_true_iff in Hfree.
        erewrite bind_ok; [reflexivity|apply ensureUnique_fresh; assumption].
      - destruct (existsb_find _ _ Hcode) as [i Hi].
        pose proof (getRandomCode_find P data w Hr) as Hg. rewrite Hi in Hg.
        eexists _, _. erewrite bind_ok; [reflexivity|exact Hg]. }
    rewrite (bind_ok _ _ _ _ _ Hstep).
    assert (exists ph, hashPassword P (opts !! lit "password") w1 = (w1, Ok ph)) as [ph Hph].
    { destruct (opts !! lit "password") as [[|s]|]; [discriminate| |eexists; reflexivity].
      unfold hashPassword. destruct (truthy (Some (OStr s))); eexists; reflexivity. }
    rewrite (bind_ok _ _ _ _ _ Hph).
    assert (exists loc, parseLocales (opts !! lit "locale") w1 = (w1, Ok loc)) as [loc Hl].
    { destruct (opts !! lit "locale") as [[|s]|]; [discriminate| |eexists; reflexivity].
      unfold parseLocales. destruct (truthy (Some (OStr s))); eexists; reflexivity. }
    rewrite (bind_ok _ _ _ _ _ Hl).
    destruct (truthy (opts !! lit "replace")).
    + match goal with |- context [bind ?m ?k w1] =>
        assert (m w1 = (w1, Ok (placed true code (mapping_of P opts code url ph loc) data)))
          as Hd
      end.
      { rewrite (bind_ok _ _ _ _ _ (findIndex_has_code code data w1 Hr)).
        unfold placed. destruct (index_of (coded code) data); reflexivity. }
      rewrite (bind_ok _ _ _ _ _ Hd), save_and_log. eexists. reflexivity.
    + erewrite bind_ok; [|reflexivity]. rewrite save_and_log. eexists. reflexivity.
Qed.

Lemma settled_store opts data w code w1 :
  settled P opts data w code w1 -> store w1 = store w.
Proof. intros [(_ & _ & _ & _ & ->)|(_ & i & _ & _ & _ & ->)]; reflexivity. Qed.

(** X20: on a record set, the checks of [add] decide what it does.  They
    pass when the URL is given and parses, the code is either given,
    well-formed and (with [--replace] or) unused, or not given while one
    of the candidates is free, and neither [--password] nor [--locale] is
    a flag without a value: then [add] gets as far as saving the array
    with the record the options describe in its place, nothing written
    before, and what becomes of the run is what becomes of that save and
    of the line that reports it.  When they do not pass, [add] throws
    with the files, the output and the exit status as they were. *)
Theorem add_checks_decide opts file data w :
  record_set data = true ->
  if add_accepts P opts data w
  then exists url code w1,
         opts !! lit "url" = Some url
         /\ code_from P opts w code
         /\ store w1 = store w
         /\ cmd_add P opts file data w =
            (saveMappings P file
               (placed (truthy (opts !! lit "replace")) code (record_for P opts code url) data) ;;
             console_log (lit "已写入 " ++ to_str code ++ lit " -> " ++ to_str url)) w1
  else exists w' e, cmd_add P opts file data w = (w', Throw e) /\ store w' = store w.
Proof.
  intros Hr. pose proof (cmd_add_accepts opts file data w Hr) as [Hok Hacc].
  destruct (add_accepts P opts data w).
  - destruct (Hacc eq_refl) as [w' H].
    destruct (cmd_add_ok P _ _ _ _ _ Hr H)
      as (url & code & w1 & ph & loc & Hurl & Hu & Hv & Hs & Hh & Hl & Hw).
    cbv zeta in Hw. rewrite (mapping_of_record P opts code url _ _ _ ph loc Hh Hl) in Hw.
    exists url, code, w1. split; [exact Hurl|].
    split; [exact (settled_code_from P _ _ _ _ _ Hs)|].
    split; [exact (settled_store _ _ _ _ _ Hs)|].
    rewrite H, save_and_log, Hw. reflexivity.
  - destruct (cmd_add P opts file data w) as [w' [[]|e]] eqn:H.
    + assert (false = true) by (apply Hok; eauto). discriminate.
    + exists w', e. split; [reflexivity|]. exact (careful_cmd_add P opts file data w w' e H).
Qed.
End Edges.

(** ** Flags without a value *)

Lemma parseArgs_rest_trailing_flag n : forall rest opts key,
  (length rest <= n)%nat -> key <> lit "__proto__" ->
  parseArgs_rest (rest ++ [lit "--" ++ key]) opts !! key = Some OTrue.
Proof.
  assert (forall opts key, key <> lit "__proto__" ->
            parseArgs_rest [lit "--" ++ key] opts !! key = Some OTrue) as Hlast.
  { intros opts key Hk. cbn [parseArgs_rest].
    change (startsWith (lit "--" ++ key) (lit "--")) with true. cbn [negb].
    change (drop 2 (lit "--" ++ key)) with key. unfold opts_assign.
    rewrite bool_decide_eq_false_2 by exact Hk. apply lookup_insert_eq. }
  induction n as [|n IH]; intros rest opts key Hlen Hk.
  { destruct rest; [apply Hlast, Hk|simpl in Hlen; lia]. }
  destruct rest as [|token rest']; [apply Hlast, Hk|].
  cbn [length] in Hlen. cbn [app parseArgs_rest].
  destruct (negb (startsWith token (lit "--"))); [apply IH; [lia|exact Hk]|].
  destruct rest' as [|next rest'']; cbn [app].
  - change (startsWith (lit "--" ++ key) (lit "--")) with true.
    cbn [negb]. rewrite andb_false_r. apply Hlast, Hk.
  - cbn [length] in Hlen.
    destruct (negb (bool_decide (next = [])) && negb (startsWith next (lit "--"))).
    + apply IH; [lia|exact Hk].
    + apply (IH (next :: rest'')); [cbn [length]; lia|exact Hk].
Qed.

Section Flags.
Variable P : platform.

(** X21: a command line that ends in [--file] fails with the [TypeError] of
    [path.resolve], whatever the command and the other options, before
    any file is read. *)
Theorem trailing_file_flag_fails node script cmd rest w :
  run P (main P (node :: script :: cmd :: rest ++ [lit "--file"])) w =
  World (files w) (draws w)
    (trace w ++ [Err (fault_message P (InvalidArgument (lit "paths[0]")))]) 1.
Proof.
  unfold run. rewrite main_eq.
  assert (parseArgs (node :: script :: cmd :: rest ++ [lit "--file"]) !! lit "file"
          = Some OTrue) as ->.
  { unfold parseArgs. cbn [drop].
    apply (parseArgs_rest_trailing_flag (length rest) rest _ (lit "file")); [lia|].
    vm_compute. discriminate. }
  reflexivity.
Qed.

(** X22: the record [add] saves has the properties [code], [url],
    [createdAt], [expiresAt], [passwordHash] and [targets], in this order;
    the password is kept as its digest only, [null] when none is given. *)
Theorem add_record_fields opts file data w w' :
  record_set data = true ->
  cmd_add P opts file data w = (w', Ok tt) ->
  exists mapping data',
    files w' !! file = Some (saved P data')
    /\ mapping ∈ data'
    /\ keys mapping
       = map lit ["code"; "url"; "createdAt"; "expiresAt"; "passwordHash"; "targets"]%string
    /\ property "url" mapping = value_of <$> opts !! lit "url"
    /\ property "createdAt" mapping = Some (VStr (now_ISO P))
    /\ property "expiresAt" mapping = Some (or_null (opts !! lit "expires"))
    /\ property "passwordHash" mapping =
       Some match opts !! lit "password" with
            | Some (OStr (c :: pwd)) => VStr (sha256_hex P (c :: pwd))
            | _ => VNull
            end.
Proof.
  intros Hr H.
  destruct (cmd_add_ok P _ _ _ _ _ Hr H)
    as (url & code & w1 & ph & loc & Hurl & Hu & Hv & Hs & Hh & Hl & Hw).
  cbv zeta in Hw.
  exists (mapping_of P opts code url ph loc),
         (placed (truthy (opts !! lit "replace")) code (mapping_of P opts code url ph loc) data).
  split; [rewrite Hw; cbn [files]; apply lookup_insert_eq|].
  split; [apply elem_of_placed|].
  split; [reflexivity|]. split; [rewrite Hurl; reflexivity|].
  split; [reflexivity|]. split; [reflexivity|].
  assert (ph = match opts !! lit "password" with
               | Some (OStr (c :: pwd)) => VStr (sha256_hex P (c :: pwd))
               | _ => VNull
               end) as <-; [|reflexivity].
  unfold hashPassword in Hh.
  destruct (opts !! lit "password") as [[|[|c pwd]]|].
  - discriminate Hh.
  - change (truthy (Some (OStr []))) with false in Hh. injection Hh as <-. reflexivity.
  - change (truthy (Some (OStr (c :: pwd)))) with true in Hh. injection Hh as <-. reflexivity.
  - injection Hh as <-. reflexivity.
Qed.
End Flags.

(** ** The further properties at work on the sample registry *)

Lemma failure_leaves_store_witness :
  main sample no_url_argv sample_world = (sample_world, Throw MissingUrl)
  /\ run sample (main sample no_url_argv) sample_world
     = World (files sample_world) (draws sample_world)
         (trace sample_world ++ [Err (message sample MissingUrl)]) 1.
Proof.
  assert (main sample no_url_argv sample_world = (sample_world, Throw MissingUrl)) as H
    by (vm_compute; reflexivity).
  split; [exact H|exact (failure_leaves_store sample _ _ _ _ H)].
Defined.

Lemma only_target_file_changes_witness :
  lit "/site/other.json" <> target_file sample (parseArgs gen_argv)
  /\ files (run sample (main sample gen_argv) sample_world) !! lit "/site/other.json"
     = files sample_world !! lit "/site/other.json".
Proof.
  assert (lit "/site/other.json" <> target_file sample (parseArgs gen_argv)) as H
    by (vm_compute; discriminate).
  split; [exact H|exact (only_target_file_changes sample gen_argv sample_world _ H)].
Defined.

Lemma malformed_file_fails_witness :
  (bare_flag (parseArgs list_argv !! lit "file") = false
   /\ files object_world !! target_file sample (parseArgs list_argv) = Some (lit "{}")
   /\ forallb is_space (lit "{}") = false
   /\ array_text (lit "{}") = false)
  /\ run sample (main sample list_argv) object_world
     = World (files object_world) (draws object_world)
         (trace object_world
          ++ [Err (lit "无法解析 " ++ target_file sample (parseArgs list_argv) ++ lit ": "
                   ++ match JSON_parse (lit "{}") with
                      | Some _ => lit "mappings.json 必须是数组"
                      | None => SyntaxError_message sample (lit "{}")
                      end)]) 1.
Proof.
  split; [repeat split; vm_compute; reflexivity|].
  apply (malformed_file_fails sample list_argv object_world (lit "{}"));
    vm_compute; reflexivity.
Defined.

Lemma unknown_command_prints_help_witness :
  (bare_flag (parseArgs help_argv !! lit "file") = false
   /\ loadMappings sample (target_file sample (parseArgs help_argv)) sample_world
      = (sample_world, Ok sample_data)
   /\ command_is ["add"; "remove"; "list"]%string (parseArgs help_argv !! lit "cmd") = false)
  /\ run sample (main sample help_argv) sample_world
     = World (files sample_world) (draws sample_world)
         (trace sample_world ++ [Log help_text]) (exitCode sample_world).
Proof.
  split; [repeat split; vm_compute; reflexivity|].
  apply (unknown_command_prints_help sample help_argv sample_world sample_data);
    vm_compute; reflexivity.
Defined.

Lemma other_commands_never_write_witness :
  command_is ["add"; "remove"]%string (parseArgs list_argv !! lit "cmd") = false
  /\ files (run sample (main sample list_argv) sample_world) = files sample_world
  /\ written (trace (run sample (main sample list_argv) sample_world))
     = written (trace sample_world).
Proof.
  split; [vm_compute; reflexivity|].
  apply (other_commands_never_write sample list_argv sample_world). vm_compute; reflexivity.
Defined.

Lemma parseArgs_render_witness :
  (lit "add" <> []
   /\ forallb typed_value [(lit "url", example_url); (lit "replace", OTrue)] = true)
  /\ parseArgs (lit "/usr/bin/node" :: lit "/site/tools/shortlink-cli.mjs" :: lit "add"
                :: flat_map render [(lit "url", example_url); (lit "replace", OTrue)])
     = fold_left (fun o kv => opts_assign o (fst kv) (snd kv))
         [(lit "url", example_url); (lit "replace", OTrue)]
         {[ lit "cmd" := OStr (lit "add") ]}.
Proof.
  assert (lit "add" <> []) as H by (vm_compute; discriminate).
  split; [split; [exact H|vm_compute; reflexivity]|].
  apply (parseArgs_render (lit "/usr/bin/node") (lit "/site/tools/shortlink-cli.mjs")
           (lit "add") [(lit "url", example_url); (lit "replace", OTrue)] H).
  vm_compute; reflexivity.
Defined.

Lemma list_prints_rows_witness :
  (forallb listable sample_data = true /\ forallb url_printable sample_data = true)
  /\ run sample (cmd_list sample sample_data) sample_world
     = World (files sample_world) (draws sample_world)
         (trace sample_world ++ [Log (join nl (map (row_of sample) sample_data))])
         (exitCode sample_world).
Proof.
  split; [split; vm_compute; reflexivity|].
  apply (list_prints_rows sample sample_data sample_world); vm_compute; reflexivity.
Defined.

Lemma list_fails_on_unprintable_url_witness :
  (record_set (sample_data ++ [opaque_url]) = true
   /\ forallb url_printable (sample_data ++ [opaque_url]) = false)
  /\ exists f,
       cmd_list sample (sample_data ++ [opaque_url]) sample_world
       = (sample_world, Throw (TypeError f))
       /\ run sample (cmd_list sample (sample_data ++ [opaque_url])) sample_world
          = World (files sample_world) (draws sample_world)
              (trace sample_world ++ [Err (fault_message sample f)]) 1.
Proof.
  split; [split; vm_compute; reflexivity|].
  apply (list_fails_on_unprintable_url sample (sample_data ++ [opaque_url]) sample_world);
    vm_compute; reflexivity.
Defined.

Lemma list_fails_without_string_code_witness :
  (record_set (sample_data ++ [codeless]) = true
   /\ forallb listable (sample_data ++ [codeless]) = false)
  /\ exists f,
       cmd_list sample (sample_data ++ [codeless]) sample_world
       = (sample_world, Throw (TypeError f))
       /\ run sample (cmd_list sample (sample_data ++ [codeless])) sample_world
          = World (files sample_world) (draws sample_world)
              (trace sample_world ++ [Err (fault_message sample f)]) 1.
Proof.
  split; [split; vm_compute; reflexivity|].
  apply (list_fails_without_string_code sample (sample_data ++ [codeless]) sample_world);
    vm_compute; reflexivity.
Defined.

Lemma escapeHtml_injective_witness :
  escapeHtml (lit "<a href='x'>") = escapeHtml (lit "<a href='x'>")
  /\ lit "<a href='x'>" = lit "<a href='x'>".
Proof.
  split; [reflexivity|].
  apply (escapeHtml_injective (lit "<a href='x'>") (lit "<a href='x'>")). reflexivity.
Defined.

Lemma add_then_load_witness :
  (record_set sample_data = true
   /\ forallb plain sample_data = true
   /\ cmd_add sample gen_opts sample_file sample_data sample_world = (generated_world, Ok tt))
  /\ exists url code,
       gen_opts !! lit "url" = Some url
       /\ code_from sample gen_opts sample_world code
       /\ loadMappings sample sample_file generated_world =
          (generated_world,
           Ok (placed (truthy (gen_opts !! lit "replace")) code
                 (record_for sample gen_opts code url) sample_data)).
Proof.
  split; [repeat split; vm_compute; reflexivity|].
  apply (add_then_load sample gen_opts sample_file sample_data sample_world generated_world);
    vm_compute; reflexivity.
Defined.

Lemma add_then_remove_restores_witness :
  (record_set sample_data = true
   /\ forallb plain sample_data = true
   /\ fresh_opts !! lit "code" = Some fresh1
   /\ truthy (Some fresh1) = true
   /\ existsb (coded fresh1) sample_data = false
   /\ cmd_add sample fresh_opts sample_file sample_data sample_world = (fresh_world, Ok tt)
   /\ remove_opts "fresh1" !! lit "code" = Some fresh1)
  /\ exists data1,
       loadMappings sample sample_file fresh_world = (fresh_world, Ok data1)
       /\ cmd_remove sample (remove_opts "fresh1") sample_file data1 fresh_world =
          (saveMappings sample sample_file sample_data ;;
           console_log (lit "已删除 " ++ to_str fresh1)) fresh_world.
Proof.
  split; [repeat split; vm_compute; reflexivity|].
  apply (add_then_remove_restores sample fresh_opts (remove_opts "fresh1") sample_file
           sample_data sample_world fresh_world fresh1);
    vm_compute; reflexivity.
Defined.

Lemma remove_twice_witness :
  (record_set sample_data = true
   /\ forallb plain sample_data = true
   /\ remove_opts "promo1" !! lit "code" = Some promo1
   /\ truthy (Some promo1) = true
   /\ existsb (coded promo1) sample_data = true
   /\ cmd_remove sample (remove_opts "promo1") sample_file sample_data sample_world
      = (removed_world, Ok tt))
  /\ let kept := List.filter (fun item => negb (coded promo1 item)) sample_data in
     loadMappings sample sample_file removed_world = (removed_world, Ok kept)
     /\ run sample (cmd_remove sample (remove_opts "promo1") sample_file kept) removed_world =
        World (files removed_world) (draws removed_world)
          (trace removed_world ++ [Err (lit "未找到短码 " ++ to_str promo1)])
          (exitCode removed_world).
Proof.
  split; [repeat split; vm_compute; reflexivity|].
  apply (remove_twice sample (remove_opts "promo1") sample_file sample_data sample_world
           removed_world promo1);
    vm_compute; reflexivity.
Defined.

Lemma null_element_breaks_witness :
  (VNull ∈ sample_data ++ [VNull]
   /\ remove_opts "promo1" !! lit "code" = Some promo1
   /\ truthy (Some promo1) = true)
  /\ cmd_remove sample (remove_opts "promo1") sample_file (sample_data ++ [VNull])
       sample_world
     = (sample_world, Throw (TypeError (NullProperty (lit "code"))))
  /\ getRandomCode sample (sample_data ++ [VNull]) sample_world
     = (sample_world, Throw (TypeError (NullProperty (lit "code")))).
Proof.
  assert (VNull ∈ sample_data ++ [VNull]) as H
    by (apply elem_of_app; right; apply list_elem_of_here).
  split; [split; [exact H|split; vm_compute; reflexivity]|].
  apply (null_element_breaks sample (remove_opts "promo1") sample_file
           (sample_data ++ [VNull]) sample_world promo1 H);
    vm_compute; reflexivity.
Defined.

Lemma bare_code_flag_witness :
  (record_set sample_data = true
   /\ flag_opts !! lit "code" = Some OTrue
   /\ cmd_add sample flag_opts sample_file sample_data sample_world = (flag_world, Ok tt))
  /\ exists mapping data',
       files flag_world !! sample_file = Some (saved sample data')
       /\ mapping ∈ data'
       /\ code_of mapping = Some (VBool true)
       /\ exists f, cmd_list sample data' flag_world = (flag_world, Throw (TypeError f)).
Proof.
  split; [repeat split; vm_compute; reflexivity|].
  apply (bare_code_flag sample flag_opts sample_file sample_data sample_world flag_world);
    vm_compute; reflexivity.
Defined.

Lemma add_checks_decide_witness :
  record_set sample_data = true
  /\ if add_accepts sample gen_opts sample_data sample_world
     then exists url code w1,
            gen_opts !! lit "url" = Some url
            /\ code_from sample gen_opts sample_world code
            /\ store w1 = store sample_world
            /\ cmd_add sample gen_opts sample_file sample_data sample_world =
               (saveMappings sample sample_file
                  (placed (truthy (gen_opts !! lit "replace")) code
                     (record_for sample gen_opts code url) sample_data) ;;
                console_log (lit "已写入 " ++ to_str code ++ lit " -> " ++ to_str url)) w1
     else exists w' e,
            cmd_add sample gen_opts sample_file sample_data sample_world = (w', Throw e)
            /\ store w' = store sample_world.
Proof.
  split; [vm_compute; reflexivity|].
  apply (add_checks_decide sample gen_opts sample_file sample_data sample_world).
  vm_compute; reflexivity.
Defined.

Lemma add_record_fields_witness :
  (record_set sample_data = true
   /\ cmd_add sample secret_opts sample_file sample_data sample_world
      = (secret_world, Ok tt))
  /\ exists mapping data',
       files secret_world !! sample_file = Some (saved sample data')
       /\ mapping ∈ data'
       /\ keys mapping
          = map lit ["code"; "url"; "createdAt"; "expiresAt"; "passwordHash"; "targets"]%string
       /\ property "url" mapping = value_of <$> secret_opts !! lit "url"
       /\ property "createdAt" mapping = Some (VStr (now_ISO sample))
       /\ property "expiresAt" mapping = Some (or_null (secret_opts !! lit "expires"))
       /\ property "passwordHash" mapping =
          Some match secret_opts !! lit "password" with
               | Some (OStr (c :: pwd)) => VStr (sha256_hex sample (c :: pwd))
               | _ => VNull
               end.
Proof.
  split; [split; vm_compute; reflexivity|].
  apply (add_record_fields sample secret_opts sample_file sample_data sample_world
           secret_world);
    vm_compute; reflexivity.
Defined.
